(** * Arch install script: partition planner and text wizard

    A shallow embedding of [main.py]: the [Partitioning] planner, the
    [Installer] sequence and the [InstallerTextWizard] prompts, together
    with the Python built-ins they rely on ([str.strip], [str.isalnum],
    [int], [float], [re.match] for the size pattern).

    - Strings are ASCII [string]s: the built-ins below agree with Python
      on text made of code points below 128.
    - Standard input is a finite list of lines; [input] raises [EOFError]
      once it is used up, as Python does on a closed stream.
    - The external tools ([lsblk], [parted], [mkfs], ...) are an
      environment: what a captured command prints and whether a checked
      command succeeds.  Everything the program prints, asks, runs or
      writes is recorded, in order, as a list of events.
    - [while True] loops and the tail calls that restart a function
      ([choose] after a search, [collect_general] after a refused review)
      are one loop combinator; Python's recursion limit and the digit
      limit of [int] on very long strings are left out. *)

From Stdlib Require Import ZArith List String Ascii Bool Lia Arith DecimalString.
Import ListNotations.

Local Open Scope string_scope.
Local Open Scope list_scope.
Local Open Scope Z_scope.

Infix "+++" := String.append (right associativity, at level 60).

(** ** Python string built-ins *)

Module PyStr.

Definition code (c : ascii) : N := N_of_ascii c.

Definition between (lo hi : N) (c : ascii) : bool :=
  ((lo <=? code c) && (code c <=? hi))%N.

(** [str.isspace] on one code point below 128: TAB..CR, FS..US, SPACE. *)
Definition is_space (c : ascii) : bool :=
  between 9 13 c || between 28 32 c.

Definition is_digit (c : ascii) : bool := between 48 57 c.
Definition is_upper (c : ascii) : bool := between 65 90 c.
Definition is_lower (c : ascii) : bool := between 97 122 c.
Definition is_alnum (c : ascii) : bool := is_digit c || is_upper c || is_lower c.

Definition lower_char (c : ascii) : ascii :=
  if is_upper c then ascii_of_N (code c + 32) else c.
Definition upper_char (c : ascii) : ascii :=
  if is_lower c then ascii_of_N (code c - 32) else c.

Fixpoint map (f : ascii -> ascii) (s : string) : string :=
  match s with
  | EmptyString => EmptyString
  | String c r => String (f c) (map f r)
  end.

Definition lower : string -> string := map lower_char.
Definition upper : string -> string := map upper_char.

Fixpoint lstrip (s : string) : string :=
  match s with
  | String c r => if is_space c then lstrip r else s
  | EmptyString => EmptyString
  end.

Fixpoint rstrip (s : string) : string :=
  match s with
  | EmptyString => EmptyString
  | String c r =>
      match rstrip r with
      | EmptyString => if is_space c then EmptyString else String c EmptyString
      | r' => String c r'
      end
  end.

Definition strip (s : string) : string := rstrip (lstrip s).

Definition startswith (s p : string) : bool := String.prefix p s.

(** [sub in s] *)
Fixpoint contains (s sub : string) : bool :=
  String.prefix sub s ||
  match s with
  | EmptyString => false
  | String _ r => contains r sub
  end.

Fixpoint forallb (f : ascii -> bool) (s : string) : bool :=
  match s with
  | EmptyString => true
  | String c r => f c && forallb f r
  end.

(** [str.isalnum]: at least one character and all of them alphanumeric. *)
Definition isalnum (s : string) : bool :=
  match s with
  | EmptyString => false
  | _ => forallb is_alnum s
  end.

(** [bool(s)] *)
Definition truthy (s : string) : bool :=
  match s with EmptyString => false | _ => true end.

(** [s.replace(a, b)] for one-character [a] and [b]. *)
Definition replace_char (a b : ascii) : string -> string :=
  map (fun c => if Ascii.eqb c a then b else c).

(** [s.split(sep)] for a one-character separator. *)
Fixpoint split_on (sep : ascii) (s : string) : list string :=
  match s with
  | EmptyString => [EmptyString]
  | String c r =>
      if Ascii.eqb c sep then EmptyString :: split_on sep r
      else match split_on sep r with
           | h :: t => String c h :: t
           | [] => [String c EmptyString]
           end
  end.

(** [s.split()]: the maximal runs of non-whitespace characters. *)
Fixpoint split_ws_aux (cur : string) (s : string) : list string :=
  let flush := match cur with EmptyString => [] | _ => [cur] end in
  match s with
  | EmptyString => flush
  | String c r =>
      if is_space c then flush ++ split_ws_aux EmptyString r
      else split_ws_aux (cur +++ String c EmptyString) r
  end.
Definition split_ws : string -> list string := split_ws_aux EmptyString.

(** [str(n)] for an integer. *)
Definition str_Z (z : Z) : string := NilZero.string_of_int (Z.to_int z).

Definition digit_val (c : ascii) : Z := Z.of_N (code c) - 48.

(** Value of a run of decimal digits, most significant first. *)
Fixpoint digits_val_acc (acc : Z) (s : string) : Z :=
  match s with
  | EmptyString => acc
  | String c r => digits_val_acc (10 * acc + digit_val c) r
  end.
Definition digits_val : string -> Z := digits_val_acc 0.

(** The digit groups of an [int] literal: digits, with single
    underscores allowed between two digits. *)
Fixpoint int_body (acc : Z) (prev_digit : bool) (s : string) : option Z :=
  match s with
  | EmptyString => if prev_digit then Some acc else None
  | String c r =>
      if is_digit c then int_body (10 * acc + digit_val c) true r
      else if Ascii.eqb c "_" then
        if prev_digit then
          match r with
          | String d _ => if is_digit d then int_body acc false r else None
          | EmptyString => None
          end
        else None
      else None
  end.

(** [int(s)]: surrounding whitespace, an optional sign, then the digit
    groups; [None] stands for [ValueError]. *)
Definition int (s : string) : option Z :=
  match strip s with
  | String "-" r => option_map Z.opp (int_body 0 false r)
  | String "+" r => int_body 0 false r
  | r => int_body 0 false r
  end.

End PyStr.

(** ** The doubles produced by [float] on an unsigned decimal literal *)

Module PyFloat.

(** [Finite m e] is the binary64 value [m * 2^e]; [Inf] is infinity. *)
Inductive t : Type :=
| Finite (m e : Z)
| Inf.

(** Nearest integer to [n / d] for [d > 0], ties to the even neighbour. *)
Definition round_half_even (n d : Z) : Z :=
  let q := n / d in
  let r := n mod d in
  if 2 * r <? d then q
  else if d <? 2 * r then q + 1
  else if Z.even q then q else q + 1.

(** [floor (log2 (n / d))] for positive [n] and [d]. *)
Definition ilog2_ratio (n d : Z) : Z :=
  let e := Z.log2 n - Z.log2 d in
  let below := if 0 <=? e then d * 2 ^ e <=? n else d <=? n * 2 ^ (- e) in
  if below then e else e - 1.

(** Exponent of the last mantissa bit of the double nearest to [n / d]:
    53 bits of precision, never below the subnormal quantum [2^-1074]. *)
Definition quantum_exp (n d : Z) : Z := Z.max (ilog2_ratio n d) (-1022) - 52.

(** Round-to-nearest-even conversion of the rational [n / d]
    ([n >= 0], [d > 0]) to binary64, as [float] does on a decimal string. *)
Definition of_ratio (n d : Z) : t :=
  if n =? 0 then Finite 0 0
  else
    let e := quantum_exp n d in
    let m := if 0 <=? e then round_half_even n (d * 2 ^ e)
             else round_half_even (n * 2 ^ (- e)) d in
    if (0 <=? e) && (2 ^ 1024 <=? m * 2 ^ e) then Inf else Finite m e.

(** [x * 1024]: scaling by a power of two is exact unless it overflows. *)
Definition mul1024 (x : t) : t :=
  match x with
  | Inf => Inf
  | Finite m e =>
      if (0 <=? e + 10) && (2 ^ 1024 <=? m * 2 ^ (e + 10)) then Inf
      else Finite m (e + 10)
  end.

(** [int(x)]: truncation toward zero; [None] stands for the
    [OverflowError] raised on infinity. *)
Definition to_int (x : t) : option Z :=
  match x with
  | Inf => None
  | Finite m e => Some (if 0 <=? e then m * 2 ^ e else Z.quot m (2 ^ (- e)))
  end.

(** [float(num)] for [num] of the shape [digits] or [digits.digits]. *)
Fixpoint split_dot (s : string) : string * string :=
  match s with
  | EmptyString => (EmptyString, EmptyString)
  | String c r =>
      if Ascii.eqb c "." then (EmptyString, r)
      else let (a, b) := split_dot r in (String c a, b)
  end.

Definition of_string (num : string) : t :=
  let (ip, fp) := split_dot num in
  of_ratio (PyStr.digits_val (ip +++ fp)) (10 ^ Z.of_nat (String.length fp)).

End PyFloat.

(** ** [re.match(r'^(\d+(?:\.\d+)?)([MG]?)$', value)] *)

Module SizeRe.

(** The longest run of digits at the front of [s], and the rest. *)
Fixpoint span_digits (s : string) : string * string :=
  match s with
  | String c r =>
      if PyStr.is_digit c then let (d, rest) := span_digits r in (String c d, rest)
      else (EmptyString, s)
  | EmptyString => (EmptyString, EmptyString)
  end.

(** [$] matches at the end of the string and just before a final newline. *)
Definition at_end (s : string) : bool :=
  match s with
  | EmptyString => true
  | String c EmptyString => Ascii.eqb c (ascii_of_nat 10)
  | _ => false
  end.

(** The groups [(num, unit)] of a match, [None] when there is none.  The
    character classes of the pattern are disjoint, so the greedy scan is
    the only way to match. *)
Definition re_match (value : string) : option (string * string) :=
  let (ip, r1) := span_digits value in
  match ip with
  | EmptyString => None
  | _ =>
      let (num, r2) :=
        match r1 with
        | String "." r =>
            let (fp, r') := span_digits r in
            match fp with
            | EmptyString => (ip, r1)
            | _ => (ip +++ String "." fp, r')
            end
        | _ => (ip, r1)
        end in
      match r2 with
      | String "M" r3 => if at_end r3 then Some (num, "M") else None
      | String "G" r3 => if at_end r3 then Some (num, "G") else None
      | _ => if at_end r2 then Some (num, "") else None
      end
  end.

End SizeRe.

(** ** Python values and the configuration records *)

(** The values a prompt can hand back: [None], a [bool], an [int] or a
    [str].  [bool] is a subclass of [int] in Python. *)
Inductive PyVal : Type :=
| VNone
| VBool (b : bool)
| VInt (z : Z)
| VStr (s : string).

(** [bool(v)] *)
Definition py_truthy (v : PyVal) : bool :=
  match v with
  | VNone => false
  | VBool b => b
  | VInt z => negb (z =? 0)
  | VStr s => PyStr.truthy s
  end.

(** [str(v)], as an f-string or [print] renders it. *)
Definition py_str (v : PyVal) : string :=
  match v with
  | VNone => "None"
  | VBool true => "True"
  | VBool false => "False"
  | VInt z => PyStr.str_Z z
  | VStr s => s
  end.

(** The integer behind an [int] or a [bool] ([False] is 0, [True] is 1). *)
Definition py_as_int (v : PyVal) : option Z :=
  match v with
  | VInt z => Some z
  | VBool b => Some (Z.b2z b)
  | _ => None
  end.

(** [class Partitioning]: the fields set by [__init__]. *)
Record Partitioning : Type := mkPartitioning {
  device : string;
  root_partition_size : Z;
  total_disk_size : Z;
  remaining_size : Z
}.

(** [class User] *)
Record User : Type := mkUser {
  username : PyVal;
  password : PyVal;
  sudo : bool
}.

(** [class General] *)
Record General : Type := mkGeneral {
  timezone : string;
  hostname : PyVal;
  users : list User
}.

(** [class PostInstall] *)
Record PostInstall : Type := mkPostInstall {
  packages : list string;
  scripts : list string
}.

(** [class Installer] *)
Record Installer : Type := mkInstaller {
  general : General;
  partitioning : Partitioning;
  post_install : PostInstall
}.

(** ** Effects: the terminal, the external tools, exceptions *)

(** What the program does to the outside world, in order. *)
Inductive Event : Type :=
| Print (text : string)                     (* print(text) *)
| PrintRaw (text : string)                  (* print(text, end='') *)
| PrintRepr (i : Installer)                 (* print(i) *)
| Prompt (text : string)                    (* input(text) writing its prompt *)
| Capture (argv : list string)              (* subprocess.run(argv, capture_output=True) *)
| Run (argv : list string)                  (* subprocess.run(argv) *)
| RunInput (argv : list string) (text : string)   (* subprocess.run(argv, input=text) *)
| RunAppend (argv : list string) (path : string)  (* stdout appended to path *)
| Mkpart (dev fstype : string) (start stop : Z)
    (* parted dev --script mkpart primary fstype {start}MB {stop}MB *)
| FileOpen (path mode : string)             (* open(path, mode) *)
| FileWrite (path text : string)            (* f.write(text) on the open file *)
| Makedirs (path : string).                 (* os.makedirs(path, exist_ok=True) *)

Inductive Exn : Type :=
| ValueError (msg : string)
| TypeError (msg : string)
| IndexError
| EOFError
| OverflowError
| CalledProcessError
| SystemExit (msg : string).

(** The collaborators outside the program. *)
Record Env : Type := mkEnv {
  (* zoneinfo.available_timezones(): the members of the set, in the order
     the set iterates *)
  available_timezones : list string;
  (* stdout of a captured command; None when it exits with an error *)
  capture_stdout : list string -> option string;
  (* whether a command run with check=True exits with status 0 *)
  tool_ok : Event -> bool
}.

(** The lines still to be read on standard input and the events so far
    (oldest first). *)
Record World : Type := mkWorld {
  stdin : list string;
  events : list Event
}.

Inductive Outcome (A : Type) : Type :=
| Ok (a : A)
| Raise (e : Exn)
| OutOfFuel.
Arguments Ok {A} a.
Arguments Raise {A} e.
Arguments OutOfFuel {A}.

Definition M (A : Type) : Type := World -> Outcome A * World.

Definition ret {A} (a : A) : M A := fun w => (Ok a, w).

Definition bind {A B} (m : M A) (k : A -> M B) : M B :=
  fun w =>
    match m w with
    | (Ok a, w') => k a w'
    | (Raise e, w') => (Raise e, w')
    | (OutOfFuel, w') => (OutOfFuel, w')
    end.

Notation "x <- m ;; k" := (bind m (fun x => k))
  (at level 61, m at next level, right associativity).
Notation "m ;; k" := (bind m (fun _ => k))
  (at level 61, right associativity).

Definition raise {A} (e : Exn) : M A := fun w => (Raise e, w).

Definition emit (ev : Event) : M unit :=
  fun w => (Ok tt, mkWorld (stdin w) (events w ++ [ev])).

Definition print (text : string) : M unit := emit (Print text).

(** [input(prompt)]: [EOFError] once standard input is exhausted. *)
Definition input (prompt : string) : M string :=
  fun w =>
    let evs := events w ++ [Prompt prompt] in
    match stdin w with
    | [] => (Raise EOFError, mkWorld [] evs)
    | line :: rest => (Ok line, mkWorld rest evs)
    end.

(** [try: m  except: h] with a bare [except], as in
    [download_and_run_scripts].  [SystemExit] is an exception too. *)
Definition try_except {A} (m : M A) (h : M A) : M A :=
  fun w =>
    match m w with
    | (Raise _, w') => h w'
    | r => r
    end.

(** [while True] and tail calls back into the same function: [body]
    either continues with a new loop state or returns. *)
Fixpoint iter {S A} (fuel : nat) (body : S -> M (S + A)) (s : S) : M A :=
  match fuel with
  | O => fun w => (OutOfFuel, w)
  | Datatypes.S n =>
      r <- body s ;;
      match r with
      | inl s' => iter n body s'
      | inr a => ret a
      end
  end.

(** Every loop of the program reads a line on each turn, so the lines
    left on standard input bound the number of turns. *)
Definition loop {S A} (body : S -> M (S + A)) (s : S) : M A :=
  fun w => iter (Datatypes.S (List.length (stdin w))) body s w.

(** ** The program *)

Definition NL : string := String (ascii_of_nat 10) EmptyString.
Definition TAB : string := String (ascii_of_nat 9) EmptyString.
Definition ESC : string := String (ascii_of_nat 27) EmptyString.

Section Program.

Variable env : Env.

(** [subprocess.run(..., check=True)] *)
Definition run_checked (ev : Event) : M unit :=
  emit ev ;;
  if tool_ok env ev then ret tt else raise CalledProcessError.

(** [subprocess.run(argv, capture_output=True, text=True, check=True).stdout] *)
Definition run_capture (argv : list string) : M string :=
  emit (Capture argv) ;;
  match capture_stdout env argv with
  | Some out => ret out
  | None => raise CalledProcessError
  end.

(** *** class Partitioning *)

Definition BOOT_SIZE : Z := 512.
Definition SWAP_SIZE : Z := 1024.

Definition has_separate_home_partition (p : Partitioning) : bool :=
  0 <? root_partition_size p.

Definition get_disk_size (dev : string) : M Z :=
  out <- run_capture ["lsblk"; "-b"; "-n"; "-d"; "-o"; "SIZE"; dev] ;;
  match PyStr.int (PyStr.strip out) with
  | Some n => ret (n / 1024 ^ 2)
  | None => raise (ValueError "invalid literal for int() with base 10")
  end.

(** The assignments of [__init__] once [get_disk_size] has answered
    [total]. *)
Definition Partitioning_fields (dev : string) (root total : Z) : Partitioning :=
  let self := mkPartitioning dev root total (total - (BOOT_SIZE + SWAP_SIZE)) in
  if has_separate_home_partition self
  then mkPartitioning dev root total (remaining_size self - root_partition_size self)
  else self.

(** [Partitioning(device, root_partition_size)].  The wizard passes what
    [ask_size] returned; the record keeps the integer behind it, which is
    all the comparisons and subtractions of the class look at. *)
Definition Partitioning_init (dev : string) (root : PyVal) : M Partitioning :=
  total <- get_disk_size dev ;;
  match py_as_int root with
  | Some r => ret (Partitioning_fields dev r total)
  | None => raise (TypeError "'>' not supported between these operands")
  end.

Definition create_partition (self : Partitioning) (fstype : string) (start size : Z) : M unit :=
  run_checked (Mkpart (device self) fstype start (start + size)).

Definition format_partition (part fstype : string) : M unit :=
  if String.eqb fstype "fat32" then run_checked (Run ["mkfs.fat"; "-F32"; part])
  else if String.eqb fstype "swap" then run_checked (Run ["mkswap"; part])
  else if String.eqb fstype "ext4" then run_checked (Run ["mkfs.ext4"; part])
  else ret tt.

Definition create_partitions (self : Partitioning) (root_size : Z) (home_size : option Z) : M unit :=
  run_checked (Run ["parted"; device self; "--script"; "mklabel"; "gpt"]) ;;
  create_partition self "fat32" 0 BOOT_SIZE ;;
  create_partition self "linux-swap" BOOT_SIZE SWAP_SIZE ;;
  create_partition self "ext4" (BOOT_SIZE + SWAP_SIZE) root_size ;;
  match home_size with
  | Some h => create_partition self "ext4" (BOOT_SIZE + SWAP_SIZE + root_size) h
  | None => ret tt
  end ;;
  format_partition (device self +++ "p1") "fat32" ;;
  format_partition (device self +++ "p2") "swap" ;;
  format_partition (device self +++ "p3") "ext4" ;;
  match home_size with
  | Some h => if h =? 0 then ret tt else format_partition (device self +++ "p4") "ext4"
  | None => ret tt
  end.

Definition too_large : Exn :=
  ValueError "Root partition size is too large for the available space.".

Definition apply (self : Partitioning) : M unit :=
  if negb (root_partition_size self =? 0) && (remaining_size self <=? root_partition_size self)
  then raise too_large
  else
    print ("Creating partitions on " +++ device self +++ ":") ;;
    print ("  Boot partition: " +++ PyStr.str_Z BOOT_SIZE +++ "MB") ;;
    print ("  Swap partition: " +++ PyStr.str_Z SWAP_SIZE +++ "MB") ;;
    let root_and_home_size :=
      if negb (has_separate_home_partition self) then remaining_size self
      else root_partition_size self in
    print ("  Root partition: " +++ PyStr.str_Z root_and_home_size +++ "MB") ;;
    let home_size := remaining_size self - root_partition_size self in
    (if has_separate_home_partition self
     then print ("  Home partition: " +++ PyStr.str_Z home_size +++ "MB")
     else ret tt) ;;
    create_partitions self root_and_home_size
      (if has_separate_home_partition self then Some home_size else None).

Definition mount (self : Partitioning) : M unit :=
  print "Mounting boot, swap, root (and home if it exists)" ;;
  run_checked (Run ["mount"; device self +++ "p3"; "/mnt"]) ;;
  (if has_separate_home_partition self
   then run_checked (Run ["mkdir"; "-p"; "/mnt/home"]) ;;
        run_checked (Run ["mount"; device self +++ "p4"; "/mnt/home"])
   else ret tt) ;;
  run_checked (Run ["mkdir"; "-p"; "/mnt/boot"]) ;;
  run_checked (Run ["mount"; device self +++ "p1"; "/mnt/boot"]) ;;
  run_checked (Run ["swapon"; device self +++ "p2"]).

(** *** class PostInstall *)

Definition install_packages (self : PostInstall) : M unit :=
  emit (Run (["arch-chroot"; "/mnt"; "pacman"; "-S"; "--noconfirm"] ++ packages self)).

Fixpoint run_scripts (l : list string) : M unit :=
  match l with
  | [] => ret tt
  | script :: rest =>
      let script_name := List.last (PyStr.split_on "/" script) EmptyString in
      try_except
        (run_checked (Run ["curl"; "-o"; "/mnt/tmp/" +++ script_name; script]) ;;
         run_checked (Run ["chmod"; "+x"; "/mnt/tmp/" +++ script_name]) ;;
         run_checked (Run ["arch-chroot"; "/mnt"; "/tmp/" +++ script_name]))
        (print ("Error downloading/running script " +++ script)) ;;
      run_scripts rest
  end.

Definition download_and_run_scripts (self : PostInstall) : M unit :=
  emit (Makedirs "/mnt/tmp") ;;
  run_scripts (scripts self).

Definition PostInstall_install (self : PostInstall) : M unit :=
  print "Post installation started" ;;
  install_packages self ;;
  download_and_run_scripts self ;;
  print "Post installation completed".

(** *** class Installer *)

Definition BOOT_ENTRY_TITLE : string := "Arch Linux".

(** A value used where Python needs a [str] (an argv entry, the argument
    of [f.write]). *)
Definition expect_str (v : PyVal) : M string :=
  match v with
  | VStr s => ret s
  | _ => raise (TypeError "expected str")
  end.

Definition pacstrap : M unit :=
  print "Running pacstrap" ;;
  run_checked (Run ["pacstrap"; "/mnt"; "base"; "linux"; "linux-firmware"; "sudo"]).

Definition genfstab : M unit :=
  print "Making fstab" ;;
  emit (FileOpen "/mnt/etc/fstab" "a") ;;
  run_checked (RunAppend ["genfstab"; "-U"; "/mnt"] "/mnt/etc/fstab").

Definition set_hostname (self : Installer) : M unit :=
  print "Setting hostname" ;;
  emit (FileOpen "/mnt/etc/hostname" "w") ;;
  h <- expect_str (hostname (general self)) ;;
  emit (FileWrite "/mnt/etc/hostname" h).

Definition edit_sudoers : M unit :=
  print "Editing sudoers" ;;
  emit (FileOpen "/mnt/etc/sudoers" "a") ;;
  emit (FileWrite "/mnt/etc/sudoers" (NL +++ "%wheel ALL=(ALL:ALL) ALL" +++ NL)).

Definition make_hosts (self : Installer) : M unit :=
  let h := py_str (hostname (general self)) in
  print "Making hosts" ;;
  emit (FileOpen "/mnt/etc/hosts" "w") ;;
  emit (FileWrite "/mnt/etc/hosts" ("127.0.0.1" +++ TAB +++ "localhost" +++ NL)) ;;
  emit (FileWrite "/mnt/etc/hosts" ("::1" +++ TAB +++ "localhost" +++ NL)) ;;
  emit (FileWrite "/mnt/etc/hosts"
          ("127.0.1.1" +++ TAB +++ h +++ ".localdomain" +++ TAB +++ h +++ NL)).

Definition setup_time (self : Installer) : M unit :=
  print "Setting up time" ;;
  let path := "/usr/share/zoneinfo/" +++ PyStr.replace_char "_" "/" (timezone (general self)) in
  run_checked (Run ["ln"; "-sf"; path; "/mnt/etc/localtime"]) ;;
  run_checked (Run ["arch-chroot"; "/mnt"; "hwclock"; "--systohc"]).

Definition locale_gen : M unit :=
  print "Generating locale" ;;
  emit (FileOpen "/mnt/etc/locale.gen" "a") ;;
  emit (FileWrite "/mnt/etc/locale.gen" ("en_US.UTF-8 UTF-8" +++ NL)) ;;
  run_checked (Run ["arch-chroot"; "/mnt"; "locale-gen"]) ;;
  emit (FileOpen "/mnt/etc/locale.conf" "a") ;;
  emit (FileWrite "/mnt/etc/locale.conf" (NL +++ "LANG=en_US.UTF-8" +++ NL)).

Fixpoint add_each_user (l : list User) : M unit :=
  match l with
  | [] => ret tt
  | user :: rest =>
      name <- expect_str (username user) ;;
      run_checked (Run ["arch-chroot"; "/mnt"; "useradd"; "-m"; "-G"; "wheel"; name]) ;;
      run_checked (RunInput ["arch-chroot"; "/mnt"; "chpasswd"]
                     (py_str (username user) +++ ":" +++ py_str (password user))) ;;
      add_each_user rest
  end.

Definition add_users (self : Installer) : M unit :=
  print "Adding users" ;;
  add_each_user (users (general self)).

Definition lock_root : M unit :=
  print "Locking root account" ;;
  run_checked (Run ["arch-chroot"; "/mnt"; "passwd"; "-l"; "root"]).

Definition install_bootloader : M unit :=
  print "Install bootloader" ;;
  run_checked (Run ["arch-chroot"; "/mnt"; "bootctl"; "install"]).

Definition make_loader_config : M unit :=
  print "Making loader config" ;;
  emit (FileOpen "/mnt/boot/loader/loader.conf" "w") ;;
  emit (FileWrite "/mnt/boot/loader/loader.conf" ("default linux" +++ NL)) ;;
  emit (FileWrite "/mnt/boot/loader/loader.conf" ("timeout 3" +++ NL)) ;;
  emit (FileWrite "/mnt/boot/loader/loader.conf" ("editor no" +++ NL)).

Definition make_boot_entry (self : Installer) : M unit :=
  let path := "/mnt/boot/loader/entries/linux.conf" in
  print "Making boot entry" ;;
  emit (FileOpen path "w") ;;
  emit (FileWrite path ("title " +++ BOOT_ENTRY_TITLE +++ NL)) ;;
  emit (FileWrite path ("linux /vmlinuz-linux" +++ NL)) ;;
  emit (FileWrite path ("initrd /initramfs-linux.img" +++ NL)) ;;
  out <- run_capture ["blkid"; "-s"; "PARTUUID"; "-o"; "value";
                      device (partitioning self) +++ "p3"] ;;
  emit (FileWrite path ("options root=PARTUUID=" +++ PyStr.strip out +++ " rw" +++ NL)).

Definition setup_bootloader (self : Installer) : M unit :=
  print "Setting up bootloader" ;;
  install_bootloader ;;
  make_loader_config ;;
  make_boot_entry self.

Definition setup_network : M unit :=
  print "Installing and enabling network manager" ;;
  run_checked (Run ["arch-chroot"; "/mnt"; "pacman"; "-S"; "--noconfirm"; "networkmanager"]) ;;
  run_checked (Run ["arch-chroot"; "/mnt"; "systemctl"; "enable"; "NetworkManager"]).

Definition install (self : Installer) : M unit :=
  print "Installation started" ;;
  apply (partitioning self) ;;
  mount (partitioning self) ;;
  pacstrap ;;
  genfstab ;;
  set_hostname self ;;
  add_users self ;;
  edit_sudoers ;;
  lock_root ;;
  make_hosts self ;;
  setup_time self ;;
  locale_gen ;;
  setup_bootloader self ;;
  setup_network ;;
  PostInstall_install (post_install self) ;;
  print "Installation complete!".

(** *** class InstallerTextWizard *)

(** [VALID_UNIX = lambda x: x.isalnum() and len(x) > 0] *)
Definition VALID_UNIX (x : string) : M PyVal :=
  ret (VBool (PyStr.isalnum x && (0 <? Z.of_nat (String.length x)))).

Definition clear : M unit := emit (PrintRaw (ESC +++ "c")).

(** One turn of the [while True] of [ask]: [inr v] returns [v], [inl tt]
    goes round again. *)
Definition ask_turn (prompt : string) (check : option (string -> M PyVal)) (_ : unit)
  : M (unit + PyVal) :=
  value <- input (prompt +++ ": ") ;;
  match check with
  | Some chk =>
      result <- chk value ;;
      match result with
      | VBool true => ret (inr (VStr value))              (* result is True *)
      | VStr _ => ret (inr result)                        (* isinstance(result, str) *)
      | VInt _ | VBool false => ret (inr result)          (* isinstance(result, int) *)
      | VNone => print "Invalid input" ;; ret (inl tt)
      end
  | None => ret (inr (VStr value))
  end.

Definition ask (prompt : string) (check : option (string -> M PyVal)) : M PyVal :=
  loop (ask_turn prompt check) tt.

Definition ask_yn (prompt : string) : M bool :=
  line <- input prompt ;;
  ret (negb (PyStr.startswith (PyStr.lower (PyStr.strip line)) "n")).

Definition size_filter (value : string) : M PyVal :=
  let value := PyStr.upper (PyStr.strip value) in
  match SizeRe.re_match value with
  | None =>
      print "Please enter a number followed by optional M or G (e.g., 512M, 1G, or just 512)" ;;
      ret (VBool false)
  | Some (num, unit) =>
      let num := PyFloat.of_string num in
      match PyFloat.to_int (if String.eqb unit "G" then PyFloat.mul1024 num else num) with
      | Some n => ret (VInt n)
      | None => raise OverflowError
      end
  end.

Definition ask_size (prompt : string) : M PyVal :=
  ask prompt (Some size_filter).

(** What [choose] is given as [items]: the set of time zones, or a list. *)
Inductive Items : Type :=
| ItemSet (members : list string)
| ItemList (members : list string).

(** The items in iteration order. *)
Definition item_seq (items : Items) : list string :=
  match items with
  | ItemSet l => l
  | ItemList l => l
  end.

Definition len (items : Items) : Z := Z.of_nat (List.length (item_seq items)).

(** [items[index]] *)
Definition subscript (items : Items) (index : Z) : M string :=
  match items with
  | ItemSet _ => raise (TypeError "'set' object is not subscriptable")
  | ItemList l =>
      let i := if index <? 0 then index + len items else index in
      if (0 <=? i) && (i <? len items)
      then match nth_error l (Z.to_nat i) with
           | Some x => ret x
           | None => raise IndexError
           end
      else raise IndexError
  end.

Fixpoint print_items (i : Z) (l : list string) : M unit :=
  match l with
  | [] => ret tt
  | x :: rest => print (PyStr.str_Z i +++ ") " +++ x) ;; print_items (i + 1) rest
  end.

(** [choice[1:]] *)
Definition drop_first (s : string) : string :=
  match s with
  | String _ r => r
  | EmptyString => EmptyString
  end.

Definition search (items : Items) (query : string) : list string :=
  List.filter (fun item => PyStr.contains (PyStr.lower item) query) (item_seq items).

(** One turn of [choose] on the pool [items]: [inr x] returns [x], [inl
    pool] prompts again on [pool] (the same pool after a rejected input,
    the matches after a search that found some). *)
Definition choose_turn (prompt : string) (items : Items) : M (Items + string) :=
  print_items 1 (item_seq items) ;;
  choice <- input (prompt +++ " (1-" +++ PyStr.str_Z (len items) +++ " or /search): ") ;;
  if PyStr.startswith choice "/" then
    let query := PyStr.lower (drop_first choice) in
    match search items query with
    | [] => print "No matches found" ;; ret (inl items)
    | matches => ret (inl (ItemList matches))
    end
  else
    match PyStr.int choice with
    | Some n =>
        let index := n - 1 in
        if (0 <=? index) && (index <? len items)
        then x <- subscript items index ;; ret (inr x)
        else print ("Please choose a number between 1 and " +++ PyStr.str_Z (len items)) ;;
             ret (inl items)
    | None =>
        print "Invalid input, please enter a number or a search query" ;;
        ret (inl items)
    end.

Definition choose (prompt : string) (items : Items) : M string :=
  loop (choose_turn prompt) items.

Definition section (text : string) : M unit :=
  clear ;;
  print "ARCH LINUX INSTALLER" ;;
  print ("[" +++ text +++ "]") ;;
  print "".

Definition collect_user : M (option User) :=
  username <- ask "Username" (Some VALID_UNIX) ;;
  if negb (py_truthy username) then ret None
  else
    password <- ask "Password" (Some (fun x => ret (VBool (PyStr.truthy (PyStr.strip x))))) ;;
    sudo <- ask_yn ("Can " +++ py_str username +++ " use sudo? (Y/n) ") ;;
    print "" ;;
    ret (Some (mkUser username password sudo)).

Definition collect_users_turn (users : list User) : M (list User + list User) :=
  user <- collect_user ;;
  match user with
  | None => ret (inr users)
  | Some u => ret (inl (users ++ [u]))
  end.

Definition collect_users : M (list User) :=
  section "Users" ;;
  loop collect_users_turn [].

Fixpoint print_users (l : list User) : M unit :=
  match l with
  | [] => ret tt
  | user :: rest =>
      let role := if sudo user then "Superuser" else "User" in
      print (role +++ " " +++ py_str (username user)) ;;
      print_users rest
  end.

(** [None] stands for the tail call [return self.collect_general()]. *)
Definition review_general (hostname : PyVal) (timezone : string) (users : list User)
  : M (option General) :=
  section "Review General" ;;
  print ("Hostname: " +++ py_str hostname) ;;
  print ("Timezone: " +++ timezone) ;;
  print_users users ;;
  ok <- ask_yn (NL +++ "Is this ok? (Y/n) ") ;;
  if ok then ret (Some (mkGeneral timezone hostname users)) else ret None.

Definition collect_general_turn (_ : unit) : M (unit + General) :=
  section "General" ;;
  hostname <- ask "Hostname" (Some VALID_UNIX) ;;
  section "Timezone" ;;
  timezone <- choose "Timezone" (ItemSet (available_timezones env)) ;;
  users <- collect_users ;;
  r <- review_general hostname timezone users ;;
  match r with
  | Some g => ret (inr g)
  | None => ret (inl tt)
  end.

Definition collect_general : M General := loop collect_general_turn tt.

(** [None] stands for the tail call [return self.collect_partitioning()]. *)
Definition review_partitioning (dev : string) (root_partition_size : PyVal)
  : M (option Partitioning) :=
  section "Review Partitioning" ;;
  print ("Device: " +++ dev) ;;
  (if py_truthy root_partition_size
   then print "Separate /home partition: yes" ;;
        print ("Root partition size: " +++ py_str root_partition_size)
   else print "Separate /home partition: no") ;;
  ok <- ask_yn "Is this ok? (Y/n) " ;;
  if ok then p <- Partitioning_init dev root_partition_size ;; ret (Some p)
  else ret None.

Definition collect_partitioning_turn (_ : unit) : M (unit + Partitioning) :=
  section "Partitioning" ;;
  print "Available drives:" ;;
  lsblk_output <- run_capture ["lsblk"; "-d"; "-o"; "NAME,SIZE"] ;;
  let devices :=
    List.filter PyStr.truthy
      (List.tl (PyStr.split_on (ascii_of_nat 10) (PyStr.strip lsblk_output))) in
  chosen <- choose "Device" (ItemList devices) ;;
  match PyStr.split_ws chosen with
  | [] => raise IndexError
  | name :: _ =>
      let dev := "/dev/" +++ name in
      home <- ask_yn "Do you want a separate /home partition? (Y/n) " ;;
      r <- (if negb home then review_partitioning dev (VInt 0)
            else root_partition_size <-
                   ask_size "Size of the root partition (rest will be given to /home)" ;;
                 review_partitioning dev root_partition_size) ;;
      match r with
      | Some p => ret (inr p)
      | None => ret (inl tt)
      end
  end.

Definition collect_partitioning : M Partitioning := loop collect_partitioning_turn tt.

Definition confirm_install (general : General) (partitioning : Partitioning) : M Installer :=
  section "Confirm" ;;
  let i := mkInstaller general partitioning (mkPostInstall [] []) in
  emit (PrintRepr i) ;;
  yes <- ask_yn "Do you want to install? (Y/n) " ;;
  if negb yes then raise (SystemExit "Installation aborted")
  else
    sure <- ask_yn "This will wipe everything. Are you sure? (Y/n) " ;;
    if negb sure then raise (SystemExit "Installation aborted")
    else ret i.

Definition run : M unit :=
  general <- collect_general ;;
  partitioning <- collect_partitioning ;;
  installer <- confirm_install general partitioning ;;
  install installer.

End Program.

(** A machine for trying the program out: every tool succeeds. *)
Definition demo_env : Env :=
  mkEnv ["Europe/Paris"; "Europe/Berlin"; "UTC"]
        (fun argv =>
           match argv with
           | ["lsblk"; "-d"; "-o"; "NAME,SIZE"] =>
               Some ("NAME SIZE" +++ NL +++ "sda 100G" +++ NL +++ "sdb 50G" +++ NL)
           | ["lsblk"; "-b"; "-n"; "-d"; "-o"; "SIZE"; _] =>
               Some ("42949672960" +++ NL)
           | _ => Some "1234-abcd"
           end)
        (fun _ => true).

Definition on_input (lines : list string) : World := mkWorld lines [].

(** ** More of the wizard *)

(** [str(bound)] for an optional bound of [ask_int]. *)
Definition str_bound (b : option Z) : string :=
  match b with
  | Some z => PyStr.str_Z z
  | None => "None"
  end.

(** [(min is None or value >= min) and (max is None or value <= max)] *)
Definition within (min max : option Z) (value : Z) : bool :=
  match min with None => true | Some lo => lo <=? value end
  && match max with None => true | Some hi => value <=? hi end.

(** One turn of the [while True] of [ask_int]; [ValueError] from [int]
    is the only exception caught. *)
Definition ask_int_turn (prompt : string) (min max : option Z) (_ : unit)
  : M (unit + Z) :=
  line <- input (prompt +++ ": ") ;;
  match PyStr.int line with
  | Some value =>
      if within min max value then ret (inr value)
      else print ("Value must be between " +++ str_bound min +++ " and " +++ str_bound max) ;;
           ret (inl tt)
  | None => print "Invalid input" ;; ret (inl tt)
  end.

Definition ask_int (prompt : string) (min max : option Z) : M Z :=
  loop (ask_int_turn prompt min max) tt.


(** ** Saving and loading a configuration *)

(** The values [serialize] builds and [deserialize] takes apart: scalars,
    lists, and dictionaries with string keys (entries in insertion order,
    one entry per key). *)
#[warnings="-register-all"] Inductive PyObj : Type :=
| OVal (v : PyVal)
| OList (items : list PyObj)
| ODict (entries : list (string * PyObj)).

Definition OStr (s : string) : PyObj := OVal (VStr s).

(** How the part of a [deserialize] that runs no command ends: with its
    value, with [KeyError(key)], or with the [TypeError] of subscripting
    or iterating a value that does not allow it. *)
Inductive Load (A : Type) : Type :=
| Loaded (a : A)
| KeyError (key : string)
| LoadTypeError.
Arguments Loaded {A} a.
Arguments KeyError {A} key.
Arguments LoadTypeError {A}.

Definition load_bind {A B} (m : Load A) (k : A -> Load B) : Load B :=
  match m with
  | Loaded a => k a
  | KeyError key => KeyError key
  | LoadTypeError => LoadTypeError
  end.

(** [d.get(key)] on the entries of a dictionary *)
Fixpoint dict_get (entries : list (string * PyObj)) (key : string) : option PyObj :=
  match entries with
  | [] => None
  | (k, v) :: rest => if String.eqb k key then Some v else dict_get rest key
  end.

(** [d[key]] for a string [key]: lists, strings and the other scalars
    raise [TypeError]. *)
Definition getitem (d : PyObj) (key : string) : Load PyObj :=
  match d with
  | ODict entries =>
      match dict_get entries key with
      | Some v => Loaded v
      | None => KeyError key
      end
  | _ => LoadTypeError
  end.

(** [for x in v]: the items of a list, the keys of a dictionary, the
    characters of a string. *)
Definition py_iter (v : PyObj) : Load (list PyObj) :=
  match v with
  | OList items => Loaded items
  | ODict entries => Loaded (map (fun kv => OStr (fst kv)) entries)
  | OVal (VStr s) =>
      Loaded (map (fun c => OStr (String c EmptyString)) (list_ascii_of_string s))
  | OVal _ => LoadTypeError
  end.

(** [[f(x) for x in l]] *)
Fixpoint load_each {A} (f : PyObj -> Load A) (l : list PyObj) : Load (list A) :=
  match l with
  | [] => Loaded []
  | x :: rest =>
      load_bind (f x) (fun a =>
      load_bind (load_each f rest) (fun others =>
      Loaded (a :: others)))
  end.

(** The objects [deserialize] constructs: the constructors store their
    arguments as they come. *)
Record LoadedUser : Type := mkLoadedUser {
  loaded_username : PyObj;
  loaded_password : PyObj;
  loaded_sudo : PyObj
}.

Record LoadedGeneral : Type := mkLoadedGeneral {
  loaded_timezone : PyObj;
  loaded_hostname : PyObj;
  loaded_users : list LoadedUser
}.

Record LoadedPostInstall : Type := mkLoadedPostInstall {
  loaded_packages : PyObj;
  loaded_scripts : PyObj
}.

Record LoadedInstaller : Type := mkLoadedInstaller {
  loaded_general : LoadedGeneral;
  loaded_partitioning : Partitioning;
  loaded_post_install : LoadedPostInstall
}.

(** The same objects with the attribute values of the typed records. *)
Definition User_loaded (u : User) : LoadedUser :=
  mkLoadedUser (OVal (username u)) (OVal (password u)) (OVal (VBool (sudo u))).

Definition General_loaded (g : General) : LoadedGeneral :=
  mkLoadedGeneral (OStr (timezone g)) (OVal (hostname g)) (map User_loaded (users g)).

Definition PostInstall_loaded (p : PostInstall) : LoadedPostInstall :=
  mkLoadedPostInstall (OList (map OStr (packages p))) (OList (map OStr (scripts p))).

(** [User.serialize], [User.deserialize] *)
Definition User_serialize (self : User) : PyObj :=
  ODict [("username", OVal (username self));
         ("password", OVal (password self));
         ("sudo", OVal (VBool (sudo self)))].

Definition User_deserialize (d : PyObj) : Load LoadedUser :=
  load_bind (getitem d "username") (fun name =>
  load_bind (getitem d "password") (fun pw =>
  load_bind (getitem d "sudo") (fun sd =>
  Loaded (mkLoadedUser name pw sd)))).

(** [General.serialize], [General.deserialize] *)
Definition General_serialize (self : General) : PyObj :=
  ODict [("timezone", OStr (timezone self));
         ("hostname", OVal (hostname self));
         ("users", OList (map User_serialize (users self)))].

Definition General_deserialize (d : PyObj) : Load LoadedGeneral :=
  load_bind (getitem d "users") (fun us =>
  load_bind (py_iter us) (fun items =>
  load_bind (load_each User_deserialize items) (fun users =>
  load_bind (getitem d "timezone") (fun tz =>
  load_bind (getitem d "hostname") (fun host =>
  Loaded (mkLoadedGeneral tz host users)))))).

(** [PostInstall.serialize], [PostInstall.deserialize] *)
Definition PostInstall_serialize (self : PostInstall) : PyObj :=
  ODict [("packages", OList (map OStr (packages self)));
         ("scripts", OList (map OStr (scripts self)))].

Definition PostInstall_deserialize (d : PyObj) : Load LoadedPostInstall :=
  load_bind (getitem d "packages") (fun pk =>
  load_bind (getitem d "scripts") (fun sc =>
  Loaded (mkLoadedPostInstall pk sc))).

(** [Partitioning.serialize].  The record keeps the integer behind the
    root size, so a size given as [False] is written as the 0 it equals. *)
Definition Partitioning_serialize (self : Partitioning) : PyObj :=
  ODict [("device", OStr (device self));
         ("root_partition_size", OVal (VInt (root_partition_size self)))].

(** [Partitioning(device, root)] on loaded values.  A device that is not
    a string makes [subprocess.run] raise [TypeError] on its argument
    list before anything is started; a root size that is not a scalar
    fails at [> 0], after the disk size has been read. *)
Definition Partitioning_new (env : Env) (dev root : PyObj) : M Partitioning :=
  match dev with
  | OVal (VStr s) =>
      match root with
      | OVal v => Partitioning_init env s v
      | _ =>
          get_disk_size env s ;;
          raise (TypeError "'>' not supported between these operands")
      end
  | _ => raise (TypeError "expected str, bytes or os.PathLike object")
  end.

(** [Partitioning.deserialize]: the lookups first, then the constructor,
    which asks [lsblk] for the disk size. *)
Definition Partitioning_deserialize (env : Env) (d : PyObj) : Load (M Partitioning) :=
  load_bind (getitem d "device") (fun dev =>
  let root :=
    match d with
    | ODict entries =>
        match dict_get entries "root_partition_size" with
        | Some v => v
        | None => OVal (VInt 0)
        end
    | _ => OVal (VInt 0)
    end in
  Loaded (Partitioning_new env dev root)).

(** [Installer.serialize], [Installer.deserialize].  An outcome
    [Ok (KeyError k)] or [Ok LoadTypeError] is a run that ends with that
    exception. *)
Definition Installer_serialize (self : Installer) : PyObj :=
  ODict [("general", General_serialize (general self));
         ("partitioning", Partitioning_serialize (partitioning self));
         ("post_install", PostInstall_serialize (post_install self))].

Definition Installer_deserialize (env : Env) (d : PyObj) : M (Load LoadedInstaller) :=
  match load_bind (getitem d "general") General_deserialize with
  | Loaded g =>
      match load_bind (getitem d "partitioning") (Partitioning_deserialize env) with
      | Loaded construct =>
          p <- construct ;;
          ret (load_bind (load_bind (getitem d "post_install") PostInstall_deserialize)
                 (fun s => Loaded (mkLoadedInstaller g p s)))
      | KeyError key => ret (KeyError key)
      | LoadTypeError => ret LoadTypeError
      end
  | KeyError key => ret (KeyError key)
  | LoadTypeError => ret LoadTypeError
  end.

(** The [lsblk] query of [get_disk_size]. *)
Definition lsblk_size (dev : string) : list string :=
  ["lsblk"; "-b"; "-n"; "-d"; "-o"; "SIZE"; dev].

(** ** Vocabulary of the properties *)

(** A partition as [parted] was asked to create it: [[start_mb, stop_mb)]. *)
Record Part : Type := mkPart {
  fstype : string;
  start_mb : Z;
  stop_mb : Z
}.

Definition size_mb (p : Part) : Z := stop_mb p - start_mb p.

(** The partitions created by a sequence of events, in creation order. *)
Fixpoint layout_of (evs : list Event) : list Part :=
  match evs with
  | [] => []
  | Mkpart _ fs a b :: rest => mkPart fs a b :: layout_of rest
  | _ :: rest => layout_of rest
  end.

(** Non-empty partitions laid end to end, the first one starting at [pos]. *)
Fixpoint contiguous_from (pos : Z) (l : list Part) : Prop :=
  match l with
  | [] => True
  | p :: rest => start_mb p = pos /\ start_mb p < stop_mb p /\ contiguous_from (stop_mb p) rest
  end.

Definition disjoint (p q : Part) : Prop :=
  stop_mb p <= start_mb q \/ stop_mb q <= start_mb p.

Definition pairwise_disjoint (l : list Part) : Prop := ForallOrdPairs disjoint l.

Definition total_size (l : list Part) : Z := fold_right (fun p acc => size_mb p + acc) 0 l.

(** Events that change the disk or the installed system: everything but
    terminal output and read-only queries. *)
Definition mutating (ev : Event) : bool :=
  match ev with
  | Print _ | PrintRaw _ | PrintRepr _ | Prompt _ | Capture _ => false
  | Run _ | RunInput _ _ | RunAppend _ _ | Mkpart _ _ _ _
  | FileOpen _ _ | FileWrite _ _ | Makedirs _ => true
  end.

(** A yes/no answer that [ask_yn] takes as a refusal. *)
Definition declines (line : string) : bool :=
  PyStr.startswith (PyStr.lower (PyStr.strip line)) "n".

(** What [confirm_install] shows before reading the first answer. *)
Definition confirm_banner (i : Installer) : list Event :=
  [PrintRaw (ESC +++ "c"); Print "ARCH LINUX INSTALLER"; Print "[Confirm]"; Print "";
   PrintRepr i; Prompt "Do you want to install? (Y/n) "].

Definition wipe_prompt : Event := Prompt "This will wipe everything. Are you sure? (Y/n) ".

Definition aborted : Exn := SystemExit "Installation aborted".

(** The numbered menu [choose] prints for the pool [l], counting from [i]. *)
Fixpoint listing (i : Z) (l : list string) : list Event :=
  match l with
  | [] => []
  | x :: rest => Print (PyStr.str_Z i +++ ") " +++ x) :: listing (i + 1) rest
  end.

(** The menu and the prompt of one turn of [choose]. *)
Definition menu (prompt : string) (items : Items) : list Event :=
  listing 1 (item_seq items)
  ++ [Prompt (prompt +++ " (1-" +++ PyStr.str_Z (len items) +++ " or /search): ")].

(** The size pattern as the specification writes it,
    [^(\d+(\.\d+)?)([MG]?)$], with the usual meaning of a regular
    expression matched against a whole string. *)
Inductive regex : Type :=
| Digit
| Lit (c : ascii)
| AnyOf (l : list ascii)
| Cat (r1 r2 : regex)
| Opt (r : regex)
| Plus (r : regex).

Inductive Matches : regex -> string -> Prop :=
| MDigit c : PyStr.is_digit c = true -> Matches Digit (String c EmptyString)
| MLit c : Matches (Lit c) (String c EmptyString)
| MAnyOf c l : In c l -> Matches (AnyOf l) (String c EmptyString)
| MCat r1 r2 s1 s2 : Matches r1 s1 -> Matches r2 s2 -> Matches (Cat r1 r2) (s1 +++ s2)
| MOptNone r : Matches (Opt r) EmptyString
| MOptSome r s : Matches r s -> Matches (Opt r) s
| MPlusOne r s : Matches r s -> Matches (Plus r) s
| MPlusMore r s1 s2 : Matches r s1 -> Matches (Plus r) s2 -> Matches (Plus r) (s1 +++ s2).

Definition number_regex : regex :=
  Cat (Plus Digit) (Opt (Cat (Lit ".") (Plus Digit))).
Definition unit_regex : regex := Opt (AnyOf ["M"%char; "G"%char]).
Definition size_regex : regex := Cat number_regex unit_regex.

(** The digits of a numeric part read as one integer, the decimal point
    left out, and the power of ten its fraction is over. *)
Definition significand (num : string) : Z :=
  let (ip, fp) := PyFloat.split_dot num in PyStr.digits_val (ip +++ fp).
Definition denominator (num : string) : Z :=
  let (ip, fp) := PyFloat.split_dot num in 10 ^ Z.of_nat (String.length fp).

Definition scale (unit : string) : Z := if String.eqb unit "G" then 1024 else 1.

(** The conversion as the specification words it: the numeric part, times
    1024 for [G], truncated toward zero. *)
Definition exact_mb (num unit : string) : Z :=
  Z.quot (significand num * scale unit) (denominator num).

(** Whether the last character of a string satisfies [f]. *)
Fixpoint last_is (f : ascii -> bool) (s : string) : bool :=
  match s with
  | EmptyString => false
  | String c EmptyString => f c
  | String _ r => last_is f r
  end.

(** A computation that reads at least one line when it succeeds. *)
Definition reads {A} (m : M A) : Prop :=
  forall w a w', m w = (Ok a, w') -> (List.length (stdin w') < List.length (stdin w))%nat.

(** A computation that puts nothing back on standard input. *)
Definition keeps {A} (m : M A) : Prop :=
  forall w a w', m w = (Ok a, w') -> (List.length (stdin w') <= List.length (stdin w))%nat.

(** The exceptions a computation can end with. *)
Definition raises_only {A} (P : Exn -> Prop) (m : M A) : Prop :=
  forall w e w', m w = (Raise e, w') -> P e.

(** A computation whose events are all terminal output or read-only
    queries, whatever its outcome. *)
Definition quiet {A} (m : M A) : Prop :=
  forall w r w', m w = (r, w') ->
  exists evs, events w' = events w ++ evs /\ Forall (fun ev => mutating ev = false) evs.


(** The first character of [s], if any, is not a digit. *)
Definition stops (s : string) : Prop :=
  match s with
  | EmptyString => True
  | String c _ => PyStr.is_digit c = false
  end.

Definition is_nl (c : ascii) : bool := Ascii.eqb c (ascii_of_nat 10).

(** A computation that never runs out of loop fuel. *)
Definition terminates {A} (m : M A) : Prop :=
  forall w, fst (m w) <> OutOfFuel.

(** What [size_filter] prints on a mismatch. *)
Definition size_hint : Event :=
  Print "Please enter a number followed by optional M or G (e.g., 512M, 1G, or just 512)".

(** The download of one post-install script. *)
Definition script_name (script : string) : string :=
  List.last (PyStr.split_on "/" script) EmptyString.

Definition curl_of (script : string) : Event :=
  Run ["curl"; "-o"; "/mnt/tmp/" +++ script_name script; script].

Definition is_curl (ev : Event) : bool :=
  match ev with
  | Run (cmd :: _) => String.eqb cmd "curl"
  | _ => false
  end.

(** Whether [c] occurs in [s]. *)
Fixpoint has_char (c : ascii) (s : string) : bool :=
  match s with
  | EmptyString => false
  | String x r => Ascii.eqb x c || has_char c r
  end.

(** An event that stands for an external command that went wrong: a
    checked command the environment lets fail, or a captured one. *)
Definition failed (env : Env) (ev : Event) : bool :=
  match ev with
  | Capture argv => match capture_stdout env argv with None => true | Some _ => false end
  | Run _ | RunInput _ _ | RunAppend _ _ | Mkpart _ _ _ _ => negb (tool_ok env ev)
  | _ => false
  end.

(** A computation that only adds events and that, when it ends with
    [CalledProcessError], has just issued the command that failed. *)
Definition fails_fast (env : Env) {A} (m : M A) : Prop :=
  forall w r w', m w = (r, w') ->
  exists evs, events w' = events w ++ evs /\
    (r = Raise CalledProcessError ->
     exists before ev, evs = before ++ [ev] /\ failed env ev = true).

(** [sep.join(pieces)] for a one-character separator. *)
Fixpoint join (sep : ascii) (pieces : list string) : string :=
  match pieces with
  | [] => EmptyString
  | [x] => x
  | x :: rest => x +++ String sep (join sep rest)
  end.

(** A machine on which formatting an ext4 partition fails. *)
Definition broken_mkfs_env : Env :=
  mkEnv (available_timezones demo_env) (capture_stdout demo_env)
        (fun ev => match ev with
                   | Run (cmd :: _) => negb (String.eqb cmd "mkfs.ext4")
                   | _ => true
                   end).

(** The [mount source target] commands of a sequence of events, in order. *)
Fixpoint mounts_of (evs : list Event) : list (string * string) :=
  match evs with
  | [] => []
  | Run [cmd; src; dst] :: rest =>
      if String.eqb cmd "mount" then (src, dst) :: mounts_of rest else mounts_of rest
  | _ :: rest => mounts_of rest
  end.

(** * Properties *)

(** ** The monad and its loops *)

Lemma bind_ok {A B} (m : M A) (k : A -> M B) w a w' :
  m w = (Ok a, w') -> bind m k w = k a w'.
Proof. intros H. unfold bind. now rewrite H. Qed.

Lemma bind_raise {A B} (m : M A) (k : A -> M B) w e w' :
  m w = (Raise e, w') -> bind m k w = (Raise e, w').
Proof. intros H. unfold bind. now rewrite H. Qed.

Lemma reads_keeps {A} (m : M A) : reads m -> keeps m.
Proof. intros H w a w' E. apply H in E. lia. Qed.

Lemma keeps_ret {A} (a : A) : keeps (ret a).
Proof. intros w b w' E. inversion E; subst. lia. Qed.

Lemma keeps_raise {A} e : keeps (@raise A e).
Proof. intros w b w' E. discriminate E. Qed.

Lemma keeps_emit ev : keeps (emit ev).
Proof. intros w b w' E. inversion E; subst. simpl. lia. Qed.

Lemma reads_input prompt : reads (input prompt).
Proof.
  intros w a w' E. unfold input in E.
  destruct (stdin w) as [|l r]; inversion E; subst. simpl. lia.
Qed.

Lemma keeps_bind {A B} (m : M A) (k : A -> M B) :
  keeps m -> (forall a, keeps (k a)) -> keeps (bind m k).
Proof.
  intros Hm Hk w b w' E. unfold bind in E.
  destruct (m w) as [[a| |] w1] eqn:E1; try discriminate.
  apply Hm in E1. apply Hk in E. lia.
Qed.

Lemma reads_bind_l {A B} (m : M A) (k : A -> M B) :
  reads m -> (forall a, keeps (k a)) -> reads (bind m k).
Proof.
  intros Hm Hk w b w' E. unfold bind in E.
  destruct (m w) as [[a| |] w1] eqn:E1; try discriminate.
  apply Hm in E1. apply Hk in E. lia.
Qed.

Lemma reads_bind_r {A B} (m : M A) (k : A -> M B) :
  keeps m -> (forall a, reads (k a)) -> reads (bind m k).
Proof.
  intros Hm Hk w b w' E. unfold bind in E.
  destruct (m w) as [[a| |] w1] eqn:E1; try discriminate.
  apply Hm in E1. apply Hk in E. lia.
Qed.

Section Loops.

Context {S A : Type} (body : S -> M (S + A)).
Hypothesis body_reads : forall s, reads (body s).

(** Fuel beyond the number of lines left is never used. *)
Lemma iter_enough n : forall m s w,
  (List.length (stdin w) < n)%nat -> (List.length (stdin w) < m)%nat ->
  iter n body s w = iter m body s w.
Proof.
  induction n as [|n IH]; intros m s w Hn Hm; [lia|].
  destruct m as [|m]; [lia|].
  simpl. unfold bind.
  destruct (body s w) as [[[s'|a]| |] w1] eqn:E; try reflexivity.
  apply body_reads in E. apply IH; lia.
Qed.

(** One turn of a loop, then the loop again. *)
Lemma loop_unfold s w :
  loop body s w =
  match body s w with
  | (Ok (inl s'), w') => loop body s' w'
  | (Ok (inr a), w') => (Ok a, w')
  | (Raise e, w') => (Raise e, w')
  | (OutOfFuel, w') => (OutOfFuel, w')
  end.
Proof.
  unfold loop at 1. simpl. unfold bind.
  destruct (body s w) as [[[s'|a]| |] w1] eqn:E; try reflexivity.
  unfold loop. apply body_reads in E. apply iter_enough; lia.
Qed.

Lemma iter_reads n : forall s, reads (iter n body s).
Proof.
  induction n as [|n IH]; intros s w a w' E; simpl in E; [discriminate|].
  unfold bind in E.
  destruct (body s w) as [[[s'|b]| |] w1] eqn:E1; try discriminate.
  - apply body_reads in E1. apply IH in E. lia.
  - apply body_reads in E1. inversion E; subst. lia.
Qed.

Lemma loop_reads s : reads (loop body s).
Proof. intros w a w' E. unfold loop in E. now apply iter_reads in E. Qed.

(** A loop whose turns always read is never short of fuel. *)
Lemma iter_total n : forall s w,
  (forall s w, fst (body s w) <> OutOfFuel) ->
  (List.length (stdin w) < n)%nat ->
  fst (iter n body s w) <> OutOfFuel.
Proof.
  induction n as [|n IH]; intros s w Hb Hn; [lia|].
  simpl. unfold bind.
  destruct (body s w) as [[[s'|b]| |] w1] eqn:E; simpl; try discriminate.
  - apply body_reads in E. apply IH; [assumption|lia].
  - specialize (Hb s w). rewrite E in Hb. exfalso. now apply Hb.
Qed.

Lemma loop_total s w :
  (forall s w, fst (body s w) <> OutOfFuel) ->
  fst (loop body s w) <> OutOfFuel.
Proof. intros Hb. unfold loop. apply iter_total; [assumption|lia]. Qed.

End Loops.

(** ** The partition planner *)

Section Planner.

Variable env : Env.
Hypothesis tools_ok : forall ev, tool_ok env ev = true.

Lemma run_checked_ok ev w :
  run_checked env ev w = (Ok tt, mkWorld (stdin w) (events w ++ [ev])).
Proof. unfold run_checked, bind, emit. now rewrite tools_ok. Qed.

Lemma emit_ok ev w : emit ev w = (Ok tt, mkWorld (stdin w) (events w ++ [ev])).
Proof. reflexivity. Qed.

Lemma layout_of_app l1 l2 : layout_of (l1 ++ l2) = layout_of l1 ++ layout_of l2.
Proof.
  induction l1 as [|e l1 IH]; simpl; [reflexivity|].
  destruct e; simpl; now rewrite ?IH.
Qed.

Lemma apply_accepted self w :
  (root_partition_size self = 0 \/ root_partition_size self < remaining_size self) ->
  exists evs,
    apply env self w = (Ok tt, mkWorld (stdin w) (events w ++ evs)) /\
    layout_of evs =
      [mkPart "fat32" 0 512; mkPart "linux-swap" 512 1536;
       mkPart "ext4" 1536
         (1536 + (if 0 <? root_partition_size self then root_partition_size self
                  else remaining_size self))] ++
      (if 0 <? root_partition_size self
       then [mkPart "ext4" (1536 + root_partition_size self)
               (1536 + root_partition_size self
                + (remaining_size self - root_partition_size self))]
       else []).
Proof.
  intros Hacc. unfold apply.
  assert (G : negb (root_partition_size self =? 0)
              && (remaining_size self <=? root_partition_size self) = false).
  { destruct Hacc as [H|H].
    - rewrite H. reflexivity.
    - apply andb_false_iff. right. apply Z.leb_gt. exact H. }
  rewrite G. unfold has_separate_home_partition.
  destruct (0 <? root_partition_size self) eqn:Hh; simpl negb; cbv iota.
  - assert (Hz : (remaining_size self - root_partition_size self =? 0) = false).
    { apply Z.eqb_neq. apply Z.ltb_lt in Hh. lia. }
    eexists. split.
    + unfold create_partitions, create_partition, format_partition, print.
      rewrite Hz. simpl String.eqb. cbv iota.
      repeat (first [ erewrite bind_ok by apply emit_ok
                    | erewrite bind_ok by apply run_checked_ok ]).
      rewrite run_checked_ok. simpl stdin. simpl events.
      rewrite <- !app_assoc. reflexivity.
    + reflexivity.
  - eexists. split.
    + unfold create_partitions, create_partition, format_partition, print.
      simpl String.eqb. cbv iota.
      repeat (first [ erewrite bind_ok by apply emit_ok
                    | erewrite bind_ok by apply run_checked_ok
                    | erewrite bind_ok by reflexivity ]).
      unfold ret. simpl stdin. simpl events.
      rewrite <- !app_assoc. reflexivity.
    + reflexivity.
Qed.

End Planner.

Lemma raises_only_ret {A} P (a : A) : raises_only P (ret a).
Proof. intros w e w' E. discriminate E. Qed.

Lemma raises_only_emit P ev : raises_only P (emit ev).
Proof. intros w e w' E. discriminate E. Qed.

Lemma raises_only_bind {A B} P (m : M A) (k : A -> M B) :
  raises_only P m -> (forall a, raises_only P (k a)) -> raises_only P (bind m k).
Proof.
  intros Hm Hk w e w' E. unfold bind in E.
  destruct (m w) as [[a|e1|] w1] eqn:E1; try discriminate.
  - eapply Hk; eassumption.
  - inversion E; subst. eapply Hm; eassumption.
Qed.

Lemma raises_only_run_checked env ev :
  raises_only (fun e => e = CalledProcessError) (run_checked env ev).
Proof.
  apply raises_only_bind; [apply raises_only_emit|]. intros _.
  destruct (tool_ok env ev); intros w e w' E; [discriminate|]. now inversion E.
Qed.

Ltac raises_cpe :=
  repeat first
    [ apply raises_only_run_checked
    | apply raises_only_emit
    | apply raises_only_ret
    | apply raises_only_bind; [|intros ?] ].

Lemma raises_only_format env part fs :
  raises_only (fun e => e = CalledProcessError) (format_partition env part fs).
Proof.
  unfold format_partition.
  repeat match goal with
         | |- context [if ?c then _ else _] => destruct c
         end; try apply raises_only_run_checked; apply raises_only_ret.
Qed.

Lemma raises_only_create_partitions env self r h :
  raises_only (fun e => e = CalledProcessError) (create_partitions env self r h).
Proof.
  unfold create_partitions, create_partition.
  repeat first [ apply raises_only_run_checked | apply raises_only_format
               | apply raises_only_bind; [|intros ?] ].
  - destruct h; raises_cpe.
  - destruct h as [h|]; [|apply raises_only_ret].
    destruct (h =? 0); [apply raises_only_ret | apply raises_only_format].
Qed.

(** The validation of [apply] is the only source of a [ValueError]. *)
Lemma apply_raises env self w e w' :
  apply env self w = (Raise e, w') ->
  (e = too_large /\ w' = w /\
   root_partition_size self <> 0 /\ remaining_size self <= root_partition_size self)
  \/ (e = CalledProcessError /\
      (root_partition_size self = 0 \/ root_partition_size self < remaining_size self)).
Proof.
  unfold apply.
  destruct (negb (root_partition_size self =? 0)
            && (remaining_size self <=? root_partition_size self)) eqn:G.
  - intros E. inversion E; subst. left.
    apply andb_true_iff in G. destruct G as [G1 G2].
    apply negb_true_iff, Z.eqb_neq in G1. apply Z.leb_le in G2. auto.
  - intros E. right. split.
    + refine ((_ : raises_only (fun e => e = CalledProcessError) _) w e w' E).
      unfold print.
      repeat first [ apply raises_only_emit | apply raises_only_create_partitions
                   | apply raises_only_bind; [|intros ?] ].
      destruct (has_separate_home_partition self); raises_cpe.
    + apply andb_false_iff in G. destruct G as [G|G].
      * apply negb_false_iff, Z.eqb_eq in G. auto.
      * apply Z.leb_gt in G. auto.
Qed.

Lemma apply_rejected env self w :
  root_partition_size self <> 0 ->
  remaining_size self <= root_partition_size self ->
  apply env self w = (Raise too_large, w).
Proof.
  intros H1 H2. unfold apply.
  apply Z.eqb_neq in H1. apply Z.leb_le in H2. now rewrite H1, H2.
Qed.

Lemma remaining_size_fields dev root total :
  remaining_size (Partitioning_fields dev root total) =
  if 0 <? root then total - 512 - 1024 - root else total - 512 - 1024.
Proof.
  unfold Partitioning_fields, has_separate_home_partition, BOOT_SIZE, SWAP_SIZE. simpl.
  destruct (0 <? root); simpl; lia.
Qed.

Lemma root_size_fields dev root total :
  root_partition_size (Partitioning_fields dev root total) = root.
Proof.
  unfold Partitioning_fields, has_separate_home_partition. simpl.
  now destruct (0 <? root).
Qed.

(** C4: [apply] raises the sizing error exactly when the requested root
    size is positive and at least the remaining-space field set by the
    constructor, which is [total - 512 - 1024 - root] and not the whole
    budget; the error comes before any event, so no partition is created
    or formatted; a 20480 MB disk with a 15000 MB root is rejected. *)
Theorem apply_sizing_error env dev total root w :
  0 <= root ->
  (0 < root ->
   remaining_size (Partitioning_fields dev root total) = total - 512 - 1024 - root) /\
  ((exists w', apply env (Partitioning_fields dev root total) w = (Raise too_large, w'))
   <-> 0 < root /\ root >= remaining_size (Partitioning_fields dev root total)) /\
  (forall w', apply env (Partitioning_fields dev root total) w = (Raise too_large, w') ->
              w' = w) /\
  apply env (Partitioning_fields dev 15000 20480) w = (Raise too_large, w).
Proof.
  intros Hroot.
  split; [|split; [split|split]].
  - intros H. rewrite remaining_size_fields. apply Z.ltb_lt in H. now rewrite H.
  - intros [w' E]. apply apply_raises in E.
    destruct E as [(_ & _ & Hnz & Hle)|(E & _)]; [|discriminate E].
    rewrite root_size_fields in Hnz, Hle. lia.
  - intros [Hpos Hge]. exists w. apply apply_rejected; rewrite root_size_fields; lia.
  - intros w' E. apply apply_raises in E.
    destruct E as [(_ & Hw & _)|(E & _)]; [assumption|discriminate E].
  - apply apply_rejected; rewrite root_size_fields, ?remaining_size_fields; simpl; lia.
Qed.

Lemma apply_sizing_error_witness :
  0 <= 15000 /\
  apply demo_env (Partitioning_fields "/dev/sda" 15000 20480) (on_input []) =
    (Raise too_large, on_input []).
Proof.
  split; [lia|].
  apply (apply_sizing_error demo_env "/dev/sda" 20480 15000 (on_input [])). lia.
Defined.

Ltac split_all := repeat match goal with |- _ /\ _ => split end.

Lemma contiguous_after pos l :
  contiguous_from pos l -> Forall (fun q => pos <= start_mb q) l.
Proof.
  revert pos. induction l as [|p l IH]; intros pos H; constructor.
  - destruct H as (H & _). lia.
  - destruct H as (H1 & H2 & H3). apply IH in H3.
    eapply Forall_impl; [|exact H3]. simpl. intros q Hq. lia.
Qed.

(** Partitions laid end to end do not overlap. *)
Lemma contiguous_disjoint l : forall pos,
  contiguous_from pos l -> pairwise_disjoint l.
Proof.
  induction l as [|p l IH]; intros pos H; constructor.
  - destruct H as (_ & _ & H). apply contiguous_after in H.
    eapply Forall_impl; [|exact H]. intros q Hq. now left.
  - destruct H as (_ & _ & H). eapply IH, H.
Qed.

(** C2, as amended: on a disk larger than boot plus swap, for every root
    request that passes the validation of [apply] (no separate home, or a
    root smaller than what the constructor left after it), the partitions
    are created in the order boot, swap, root, then home exactly when a
    root size was requested; they are laid end to end from offset 0 and
    pairwise disjoint, boot and swap have their fixed sizes, and without a
    separate home the sizes add up to the disk. *)
Theorem apply_layout env dev total root w :
  (forall ev, tool_ok env ev = true) ->
  1536 < total ->
  root = 0 \/ (0 < root /\ root < total - 1536 - root) ->
  exists evs boot swap rootp home,
    apply env (Partitioning_fields dev root total) w
      = (Ok tt, mkWorld (stdin w) (events w ++ evs)) /\
    layout_of evs = [boot; swap; rootp] ++ home /\
    fstype boot = "fat32" /\ fstype swap = "linux-swap" /\ fstype rootp = "ext4" /\
    size_mb boot = 512 /\ size_mb swap = 1024 /\
    contiguous_from 0 (layout_of evs) /\
    pairwise_disjoint (layout_of evs) /\
    (0 < root -> exists h, home = [h] /\ fstype h = "ext4") /\
    (root = 0 -> home = [] /\ total_size (layout_of evs) = total).
Proof.
  intros Hok Htotal Hroot.
  destruct (apply_accepted env Hok (Partitioning_fields dev root total) w) as (evs & E & L).
  { rewrite root_size_fields, remaining_size_fields.
    destruct Hroot as [H|[H1 H2]]; [now left|right].
    apply Z.ltb_lt in H1. rewrite H1. lia. }
  rewrite root_size_fields, remaining_size_fields in L.
  exists evs. rewrite L. clear L.
  destruct Hroot as [H|[H1 H2]].
  - subst root. change (0 <? 0) with false. cbv iota.
    do 3 eexists. exists [].
    split; [exact E|]. split; [reflexivity|].
    assert (C : contiguous_from 0
                  ([mkPart "fat32" 0 512; mkPart "linux-swap" 512 1536;
                    mkPart "ext4" 1536 (1536 + (total - 512 - 1024))] ++ []))
      by (cbn [contiguous_from app start_mb stop_mb]; lia).
    split_all; try reflexivity; try exact C; try (unfold size_mb; simpl; lia).
    + eapply contiguous_disjoint, C.
    + intros _. split; [reflexivity|].
      unfold total_size, size_mb. cbn [fold_right app start_mb stop_mb]. lia.
  - pose proof H1 as H1'. apply Z.ltb_lt in H1'. rewrite H1'.
    do 4 eexists.
    split; [exact E|]. split; [reflexivity|].
    assert (C : contiguous_from 0
                  ([mkPart "fat32" 0 512; mkPart "linux-swap" 512 1536;
                    mkPart "ext4" 1536 (1536 + root)] ++
                   [mkPart "ext4" (1536 + root)
                      (1536 + root + (total - 512 - 1024 - root - root))]))
      by (cbn [contiguous_from app start_mb stop_mb]; lia).
    split_all; try reflexivity; try exact C; try (unfold size_mb; simpl; lia).
    + eapply contiguous_disjoint, C.
    + intros _. eexists. split; reflexivity.
Qed.

Lemma apply_layout_witness :
  (forall ev, tool_ok demo_env ev = true) /\
  1536 < 12288 /\
  (0 = 0 \/ (0 < 0 /\ 0 < 12288 - 1536 - 0)) /\
  exists evs boot swap rootp home,
    apply demo_env (Partitioning_fields "/dev/sda" 0 12288) (on_input [])
      = (Ok tt, mkWorld [] ([] ++ evs)) /\
    layout_of evs = [boot; swap; rootp] ++ home /\
    fstype boot = "fat32" /\ fstype swap = "linux-swap" /\ fstype rootp = "ext4" /\
    size_mb boot = 512 /\ size_mb swap = 1024 /\
    contiguous_from 0 (layout_of evs) /\
    pairwise_disjoint (layout_of evs) /\
    (0 < 0 -> exists h, home = [h] /\ fstype h = "ext4") /\
    (0 = 0 -> home = [] /\ total_size (layout_of evs) = 12288).
Proof.
  split; [reflexivity|]. split; [lia|]. split; [left; reflexivity|].
  apply (apply_layout demo_env "/dev/sda" 12288 0 (on_input []));
    [reflexivity | lia | left; reflexivity].
Defined.

(** C2 as stated fails: a 15000 MB root on a 20480 MB disk lies in
    [[0, total - 1536)], yet [apply] refuses it and creates nothing. *)
Lemma apply_layout_counterexample :
  1536 < 20480 /\ 0 <= 15000 < 20480 - 1536 /\
  apply demo_env (Partitioning_fields "/dev/sda" 15000 20480) (on_input [])
  = (Raise too_large, on_input []) /\
  layout_of (events (snd (apply demo_env (Partitioning_fields "/dev/sda" 15000 20480)
                            (on_input [])))) = [].
Proof.
  split; [lia|]. split; [lia|]. split; reflexivity.
Qed.

(** C1 on the code: with a 40960 MB disk and a 10240 MB root the
    constructor leaves 29184 in the remaining-space field, but [apply]
    subtracts the root size once more: the home partition is announced and
    created with 18944 MB, over [[11776, 30720)]. *)
Theorem apply_home_40960_10240 :
  let self := Partitioning_fields "/dev/sda" 10240 40960 in
  remaining_size self = 29184 /\
  exists evs,
    apply demo_env self (on_input []) = (Ok tt, mkWorld [] evs) /\
    In (Print "  Home partition: 18944MB") evs /\
    layout_of evs =
      [mkPart "fat32" 0 512; mkPart "linux-swap" 512 1536;
       mkPart "ext4" 1536 11776; mkPart "ext4" 11776 30720] /\
    total_size (layout_of evs) = 30720.
Proof.
  split; [reflexivity|].
  eexists. split; [vm_compute; reflexivity|].
  split; [|split; reflexivity].
  simpl. tauto.
Qed.

(** The home partition in general: whenever a separate home is requested
    and accepted, it gets the remaining-space field minus the root size
    again, so root and home together fall short of the disk by the root
    size. *)
Lemma apply_home_general env dev total root w :
  (forall ev, tool_ok env ev = true) ->
  0 < root -> root < total - 1536 - root ->
  exists evs,
    apply env (Partitioning_fields dev root total) w
      = (Ok tt, mkWorld (stdin w) (events w ++ evs)) /\
    nth_error (layout_of evs) 3 = Some (mkPart "ext4" (1536 + root) (total - root)) /\
    total_size (layout_of evs) = total - root.
Proof.
  intros Hok H1 H2.
  destruct (apply_accepted env Hok (Partitioning_fields dev root total) w) as (evs & E & L).
  { rewrite root_size_fields, remaining_size_fields.
    right. apply Z.ltb_lt in H1. rewrite H1. lia. }
  rewrite root_size_fields, remaining_size_fields in L.
  apply Z.ltb_lt in H1. rewrite H1 in L.
  exists evs. split; [exact E|]. rewrite L. split.
  - cbn [app nth_error]. f_equal. f_equal. lia.
  - unfold total_size, size_mb. cbn [fold_right app start_mb stop_mb]. lia.
Qed.

(** ** Prompts *)

Lemma input_line prompt line rest evs :
  input prompt (mkWorld (line :: rest) evs) = (Ok line, mkWorld rest (evs ++ [Prompt prompt])).
Proof. reflexivity. Qed.

Lemma input_eof prompt evs :
  input prompt (mkWorld [] evs) = (Raise EOFError, mkWorld [] (evs ++ [Prompt prompt])).
Proof. reflexivity. Qed.

Lemma ask_yn_line prompt line rest evs :
  ask_yn prompt (mkWorld (line :: rest) evs)
  = (Ok (negb (declines line)), mkWorld rest (evs ++ [Prompt prompt])).
Proof. reflexivity. Qed.

Lemma lower_char_n c :
  PyStr.lower_char c = "n"%char <-> c = "n"%char \/ c = "N"%char.
Proof.
  destruct c as [[|] [|] [|] [|] [|] [|] [|] [|]]; vm_compute;
    (split; [intros H; try discriminate H; auto
            | intros [H|H]; try discriminate H; reflexivity]).
Qed.

(** A refusal is an answer whose first character, once the surrounding
    whitespace is gone, is [n] or [N]. *)
Lemma declines_iff line :
  declines line = true <->
  exists c r, PyStr.strip line = String c r /\ (c = "n"%char \/ c = "N"%char).
Proof.
  unfold declines, PyStr.startswith.
  destruct (PyStr.strip line) as [|c r];
    cbn [String.prefix PyStr.lower PyStr.map].
  - split; [discriminate|]. intros (c & r & H & _). discriminate H.
  - destruct (ascii_dec "n"%char (PyStr.lower_char c)) as [E|E].
    + split; [|intros _; now destruct (PyStr.lower r)].
      intros _. exists c, r. split; [reflexivity|].
      apply lower_char_n. now symmetry.
    + split; [discriminate|]. intros (c' & r' & H & Hc). inversion H; subst c' r'.
      apply lower_char_n in Hc. congruence.
Qed.

(** ** What reaches the disk *)

Lemma quiet_ret {A} (a : A) : quiet (ret a).
Proof. intros w r w' E. inversion E; subst. exists []. now rewrite app_nil_r. Qed.

Lemma quiet_raise {A} e : quiet (@raise A e).
Proof. intros w r w' E. inversion E; subst. exists []. now rewrite app_nil_r. Qed.

Lemma quiet_emit ev : mutating ev = false -> quiet (emit ev).
Proof. intros H w r w' E. inversion E; subst. exists [ev]. simpl. auto. Qed.

Lemma quiet_input prompt : quiet (input prompt).
Proof.
  intros w r w' E. unfold input in E.
  destruct (stdin w); inversion E; subst; exists [Prompt prompt]; simpl; auto.
Qed.

Lemma quiet_bind {A B} (m : M A) (k : A -> M B) :
  quiet m -> (forall a, quiet (k a)) -> quiet (bind m k).
Proof.
  intros Hm Hk w r w' E. unfold bind in E.
  destruct (m w) as [[a|e|] w1] eqn:E1.
  - apply Hm in E1. apply Hk in E.
    destruct E1 as (l1 & H1 & F1). destruct E as (l2 & H2 & F2).
    exists (l1 ++ l2). rewrite H2, H1, app_assoc. split; [reflexivity|].
    now apply Forall_app.
  - inversion E; subst. eapply Hm; eassumption.
  - inversion E; subst. eapply Hm; eassumption.
Qed.

Lemma quiet_iter {S A} (body : S -> M (S + A)) :
  (forall s, quiet (body s)) -> forall n s, quiet (iter n body s).
Proof.
  intros Hb. induction n as [|n IH]; intros s.
  - intros w r w' E. inversion E; subst. exists []. now rewrite app_nil_r.
  - simpl. apply quiet_bind; [apply Hb|].
    intros [s'|a]; [apply IH | apply quiet_ret].
Qed.

Lemma quiet_loop {S A} (body : S -> M (S + A)) s :
  (forall s, quiet (body s)) -> quiet (loop body s).
Proof. intros Hb w r w' E. unfold loop in E. eapply quiet_iter; eassumption. Qed.

Ltac quiet_step :=
  first
    [ apply quiet_ret
    | apply quiet_raise
    | apply quiet_input
    | apply quiet_emit; reflexivity
    | apply quiet_loop; intros ?
    | apply quiet_bind; [|intros ?]
    | match goal with
      | |- quiet (match ?x with _ => _ end) => destruct x
      end ].

Lemma quiet_print_items l : forall i, quiet (print_items i l).
Proof. induction l as [|x l IH]; intros i; simpl; repeat quiet_step. apply IH. Qed.

Lemma quiet_print_users l : quiet (print_users l).
Proof. induction l as [|x l IH]; simpl; repeat quiet_step. apply IH. Qed.

Lemma quiet_choose prompt items : quiet (choose prompt items).
Proof.
  unfold choose. apply quiet_loop. intros pool. unfold choose_turn.
  apply quiet_bind; [apply quiet_print_items|]. intros _.
  repeat quiet_step.
  unfold subscript. destruct pool; cbv zeta; repeat quiet_step.
Qed.

Lemma quiet_ask prompt check :
  (forall chk v, check = Some chk -> quiet (chk v)) -> quiet (ask prompt check).
Proof.
  intros Hc. unfold ask. apply quiet_loop. intros ?. unfold ask_turn.
  apply quiet_bind; [apply quiet_input|]. intros v.
  destruct check as [chk|]; [|apply quiet_ret].
  apply quiet_bind; [now apply Hc|]. intros r. repeat quiet_step.
Qed.

Lemma quiet_size_filter v : quiet (size_filter v).
Proof. unfold size_filter. repeat quiet_step. Qed.

Lemma quiet_collect_users : quiet collect_users.
Proof.
  unfold collect_users. apply quiet_bind; [unfold section, clear; repeat quiet_step|].
  intros _. apply quiet_loop. intros us. unfold collect_users_turn, collect_user.
  apply quiet_bind; [|intros ?; repeat quiet_step].
  apply quiet_bind.
  { apply quiet_ask. intros chk v E. inversion E; subst. apply quiet_ret. }
  intros name. destruct (negb (py_truthy name)); [apply quiet_ret|].
  apply quiet_bind.
  { apply quiet_ask. intros chk v E. inversion E; subst. apply quiet_ret. }
  intros pw. repeat quiet_step.
Qed.

Lemma quiet_collect_general env : quiet (collect_general env).
Proof.
  unfold collect_general. apply quiet_loop. intros ?. unfold collect_general_turn.
  apply quiet_bind; [unfold section, clear; repeat quiet_step|]. intros _.
  apply quiet_bind.
  { apply quiet_ask. intros chk v E. inversion E; subst. apply quiet_ret. }
  intros host.
  apply quiet_bind; [unfold section, clear; repeat quiet_step|]. intros _.
  apply quiet_bind; [apply quiet_choose|]. intros tz.
  apply quiet_bind; [apply quiet_collect_users|]. intros us.
  apply quiet_bind; [|intros ?; repeat quiet_step].
  unfold review_general.
  apply quiet_bind; [unfold section, clear; repeat quiet_step|]. intros _.
  apply quiet_bind; [repeat quiet_step|]. intros _.
  apply quiet_bind; [repeat quiet_step|]. intros _.
  apply quiet_bind; [apply quiet_print_users|]. intros _.
  repeat quiet_step.
Qed.

Lemma quiet_review_partitioning env dev root : quiet (review_partitioning env dev root).
Proof.
  unfold review_partitioning, Partitioning_init, get_disk_size, run_capture, section, clear.
  repeat quiet_step.
Qed.

Lemma quiet_collect_partitioning env : quiet (collect_partitioning env).
Proof.
  unfold collect_partitioning. apply quiet_loop. intros ?. unfold collect_partitioning_turn.
  apply quiet_bind; [unfold section, clear; repeat quiet_step|]. intros _.
  apply quiet_bind; [repeat quiet_step|]. intros _.
  apply quiet_bind; [unfold run_capture; repeat quiet_step|]. intros out.
  apply quiet_bind; [apply quiet_choose|]. intros chosen.
  destruct (PyStr.split_ws chosen) as [|name toks]; [apply quiet_raise|].
  apply quiet_bind; [unfold ask_yn; repeat quiet_step|]. intros home.
  apply quiet_bind; [|intros ?; repeat quiet_step].
  destruct (negb home); [apply quiet_review_partitioning|].
  apply quiet_bind; [|intros ?; apply quiet_review_partitioning].
  apply quiet_ask. intros chk v E. inversion E; subst. apply quiet_size_filter.
Qed.

(** ** The final confirmation *)

Section Confirm.

Variables (g : General) (p : Partitioning).
Variables (rest : list string) (evs : list Event).

Let i : Installer := mkInstaller g p (mkPostInstall [] []).

Lemma confirm_install_no_first a :
  declines a = true ->
  confirm_install g p (mkWorld (a :: rest) evs)
  = (Raise aborted, mkWorld rest (evs ++ confirm_banner i)).
Proof.
  intros Ha. unfold confirm_install.
  erewrite bind_ok by reflexivity.
  erewrite bind_ok by apply emit_ok. cbn [stdin events].
  erewrite bind_ok by apply ask_yn_line. rewrite Ha. cbn [negb].
  unfold raise, aborted, confirm_banner. now rewrite <- !app_assoc.
Qed.

Lemma confirm_install_no_second a b :
  declines a = false -> declines b = true ->
  confirm_install g p (mkWorld (a :: b :: rest) evs)
  = (Raise aborted, mkWorld rest (evs ++ confirm_banner i ++ [wipe_prompt])).
Proof.
  intros Ha Hb. unfold confirm_install.
  erewrite bind_ok by reflexivity.
  erewrite bind_ok by apply emit_ok. cbn [stdin events].
  erewrite bind_ok by apply ask_yn_line. rewrite Ha. cbn [negb].
  erewrite bind_ok by apply ask_yn_line. rewrite Hb. cbn [negb].
  unfold raise, aborted, confirm_banner, wipe_prompt. now rewrite <- !app_assoc.
Qed.

Lemma confirm_install_yes a b :
  declines a = false -> declines b = false ->
  confirm_install g p (mkWorld (a :: b :: rest) evs)
  = (Ok i, mkWorld rest (evs ++ confirm_banner i ++ [wipe_prompt])).
Proof.
  intros Ha Hb. unfold confirm_install.
  erewrite bind_ok by reflexivity.
  erewrite bind_ok by apply emit_ok. cbn [stdin events].
  erewrite bind_ok by apply ask_yn_line. rewrite Ha. cbn [negb].
  erewrite bind_ok by apply ask_yn_line. rewrite Hb. cbn [negb].
  unfold ret, confirm_banner, wipe_prompt. now rewrite <- !app_assoc.
Qed.

End Confirm.

(** C7: when the first or the second question of [confirm_install] is
    answered with a refusal, [run] ends at once with
    [SystemExit('Installation aborted')]: the question refused is the last
    event, and nothing the run did up to there touches the disk or the
    system (no partition, format, mount, package or boot loader command,
    no file written). *)
Theorem decline_aborts_before_mutation env w g p w1 w2 :
  collect_general env w = (Ok g, w1) ->
  collect_partitioning env w1 = (Ok p, w2) ->
  (exists a rest, stdin w2 = a :: rest /\ declines a = true) \/
  (exists a b rest, stdin w2 = a :: b :: rest /\ declines a = false /\ declines b = true) ->
  exists w3 evs question,
    run env w = (Raise (SystemExit "Installation aborted"), w3) /\
    events w3 = events w ++ evs ++ [Prompt question] /\
    Forall (fun ev => mutating ev = false) evs.
Proof.
  intros Hg Hp Hno.
  destruct (quiet_collect_general env _ _ _ Hg) as (l1 & E1 & F1).
  destruct (quiet_collect_partitioning env _ _ _ Hp) as (l2 & E2 & F2).
  unfold run. erewrite bind_ok by exact Hg. erewrite bind_ok by exact Hp.
  destruct w2 as [in2 ev2]. cbn [stdin events] in *.
  destruct Hno as [(a & rest & -> & Ha)|(a & b & rest & -> & Ha & Hb)].
  - erewrite bind_raise by (apply confirm_install_no_first; exact Ha).
    eexists. exists (l1 ++ l2 ++ removelast (confirm_banner (mkInstaller g p (mkPostInstall [] [])))).
    eexists. split; [reflexivity|]. cbn [events]. split.
    + rewrite E2, E1. unfold confirm_banner. cbn [removelast].
      rewrite <- !app_assoc. reflexivity.
    + apply Forall_app. split; [exact F1|]. apply Forall_app. split; [exact F2|].
      unfold confirm_banner. cbn [removelast]. repeat constructor.
  - erewrite bind_raise by (apply confirm_install_no_second; assumption).
    eexists. exists (l1 ++ l2 ++ confirm_banner (mkInstaller g p (mkPostInstall [] []))).
    eexists. split; [reflexivity|]. cbn [events]. split.
    + rewrite E2, E1. unfold wipe_prompt. rewrite <- !app_assoc. reflexivity.
    + apply Forall_app. split; [exact F1|]. apply Forall_app. split; [exact F2|].
      unfold confirm_banner. repeat constructor.
Qed.

Lemma decline_aborts_before_mutation_witness :
  exists w3 evs question,
    run demo_env
      (on_input ["host"; "/utc"; "1"; "bob"; "pw"; "y"; ""; "y"; "1"; "n"; "y"; "no"])
    = (Raise (SystemExit "Installation aborted"), w3) /\
    events w3 = [] ++ evs ++ [Prompt question] /\
    Forall (fun ev => mutating ev = false) evs.
Proof.
  eapply (decline_aborts_before_mutation demo_env
            (on_input ["host"; "/utc"; "1"; "bob"; "pw"; "y"; ""; "y"; "1"; "n"; "y"; "no"])).
  - vm_compute. reflexivity.
  - vm_compute. reflexivity.
  - left. exists "no", []. split; reflexivity.
Defined.

(** C8: [ask_yn] answers yes unless the line, stripped and lower-cased,
    starts with [n], that is unless its first non-blank character is [n]
    or [N]; an empty line is a yes.  So an empty line at the "This will
    wipe everything" question lets [confirm_install] return and [run] go
    on to [install]. *)
Theorem ask_yn_defaults_to_yes prompt line rest evs :
  ask_yn prompt (mkWorld (line :: rest) evs)
  = (Ok (negb (PyStr.startswith (PyStr.lower (PyStr.strip line)) "n")),
     mkWorld rest (evs ++ [Prompt prompt])) /\
  (fst (ask_yn prompt (mkWorld (line :: rest) evs)) = Ok false <->
   exists c r, PyStr.strip line = String c r /\ (c = "n"%char \/ c = "N"%char)) /\
  fst (ask_yn prompt (mkWorld ("" :: rest) evs)) = Ok true /\
  (forall env w g p w1 w2 a,
      collect_general env w = (Ok g, w1) ->
      collect_partitioning env w1 = (Ok p, w2) ->
      stdin w2 = a :: "" :: rest ->
      declines a = false ->
      exists w3,
        stdin w3 = rest /\
        confirm_install g p w2 = (Ok (mkInstaller g p (mkPostInstall [] [])), w3) /\
        run env w = install env (mkInstaller g p (mkPostInstall [] [])) w3).
Proof.
  split; [reflexivity|]. split; [|split; [reflexivity|]].
  - rewrite ask_yn_line. cbn [fst]. rewrite <- declines_iff.
    destruct (declines line); simpl; split; intros H; congruence.
  - intros env w g p w1 w2 a Hg Hp Hin Ha.
    destruct w2 as [in2 ev2]. cbn [stdin] in Hin. subst in2.
    eexists. split; [|split].
    2: { apply confirm_install_yes; [exact Ha|reflexivity]. }
    + reflexivity.
    + unfold run. erewrite bind_ok by exact Hg. erewrite bind_ok by exact Hp.
      erewrite bind_ok by (apply confirm_install_yes; [exact Ha|reflexivity]).
      reflexivity.
Qed.

Lemma ask_yn_defaults_to_yes_witness :
  exists w3,
    stdin w3 = [] /\
    confirm_install
      (mkGeneral "UTC" (VStr "host") [])
      (Partitioning_fields "/dev/sda" 0 40960)
      (snd (collect_partitioning demo_env
              (snd (collect_general demo_env
                      (on_input ["host"; "/utc"; "1"; ""; "y"; "1"; "n"; "y"; "y"; ""])))))
    = (Ok (mkInstaller (mkGeneral "UTC" (VStr "host") [])
             (Partitioning_fields "/dev/sda" 0 40960) (mkPostInstall [] [])), w3) /\
    run demo_env (on_input ["host"; "/utc"; "1"; ""; "y"; "1"; "n"; "y"; "y"; ""])
    = install demo_env
        (mkInstaller (mkGeneral "UTC" (VStr "host") [])
           (Partitioning_fields "/dev/sda" 0 40960) (mkPostInstall [] [])) w3.
Proof.
  refine (proj2 (proj2 (proj2 (ask_yn_defaults_to_yes "" "" [] []))) demo_env
            (on_input ["host"; "/utc"; "1"; ""; "y"; "1"; "n"; "y"; "y"; ""])
            _ _ _ _ "y" _ _ _ _).
  - vm_compute. reflexivity.
  - vm_compute. reflexivity.
  - vm_compute. reflexivity.
  - reflexivity.
Defined.

(** ** The searchable menu *)

Lemma print_items_ok l : forall i w,
  print_items i l w = (Ok tt, mkWorld (stdin w) (events w ++ listing i l)).
Proof.
  induction l as [|x l IH]; intros i w.
  - simpl. unfold ret. rewrite app_nil_r. now destruct w.
  - cbn [print_items listing]. unfold print. erewrite bind_ok by apply emit_ok.
    rewrite IH. cbn [stdin events]. now rewrite <- app_assoc.
Qed.

Lemma keeps_subscript items i : keeps (subscript items i).
Proof.
  intros w a w' E. unfold subscript in E. destruct items as [l|l]; [discriminate E|].
  cbv zeta in E.
  destruct ((0 <=? _) && _); [|discriminate E].
  destruct (nth_error l _); inversion E; subst. lia.
Qed.

Lemma reads_choose_turn prompt items : reads (choose_turn prompt items).
Proof.
  unfold choose_turn. apply reads_bind_r.
  { intros w a w' E. rewrite print_items_ok in E. inversion E; subst. simpl. lia. }
  intros _. apply reads_bind_l; [apply reads_input|]. intros choice.
  destruct (PyStr.startswith choice "/").
  - destruct (search items _);
      [apply keeps_bind; [apply keeps_emit | intros; apply keeps_ret] | apply keeps_ret].
  - destruct (PyStr.int choice) as [n|].
    + destruct ((0 <=? n - 1) && (n - 1 <? len items)).
      * apply keeps_bind; [apply keeps_subscript | intros; apply keeps_ret].
      * apply keeps_bind; [apply keeps_emit | intros; apply keeps_ret].
    + apply keeps_bind; [apply keeps_emit | intros; apply keeps_ret].
Qed.

(** [choose] is one turn followed by [choose] on the pool that turn
    hands on. *)
Lemma choose_unfold prompt items w :
  choose prompt items w =
  match choose_turn prompt items w with
  | (Ok (inl pool), w') => choose prompt pool w'
  | (Ok (inr x), w') => (Ok x, w')
  | (Raise e, w') => (Raise e, w')
  | (OutOfFuel, w') => (OutOfFuel, w')
  end.
Proof. unfold choose. apply loop_unfold. apply reads_choose_turn. Qed.

Lemma startswith_slash q : PyStr.startswith (String "/" q) "/" = true.
Proof. unfold PyStr.startswith. now destruct q. Qed.

Lemma choose_turn_search prompt items q rest evs :
  choose_turn prompt items (mkWorld (String "/" q :: rest) evs) =
  match search items (PyStr.lower q) with
  | [] => (Ok (inl items),
           mkWorld rest (evs ++ menu prompt items ++ [Print "No matches found"]))
  | found => (Ok (inl (ItemList found)), mkWorld rest (evs ++ menu prompt items))
  end.
Proof.
  unfold choose_turn. erewrite bind_ok by apply print_items_ok.
  cbn [stdin events]. erewrite bind_ok by apply input_line.
  rewrite startswith_slash. cbn [drop_first]. unfold menu.
  destruct (search items (PyStr.lower q)).
  - unfold print. erewrite bind_ok by apply emit_ok. cbn [stdin events].
    unfold ret. now rewrite <- !app_assoc.
  - unfold ret. now rewrite <- !app_assoc.
Qed.

(** C9: a line starting with [/] filters the current pool down to the
    items that contain the rest of the line, letter case ignored.  If some
    item matches, [choose] carries on with the matches as its pool, so the
    next search looks only among them; if none does it prints "No matches
    found" and asks again on the same pool.  On ["sda 100G"; "sdb 50G"]
    the search [/sdb] leaves the pool ["sdb 50G"], from which "1" picks
    "sdb 50G", and a following [/x] finds nothing and keeps that pool. *)
Theorem choose_search_narrows prompt items q rest evs :
  choose prompt items (mkWorld (String "/" q :: rest) evs) =
    match search items (PyStr.lower q) with
    | [] => choose prompt items
              (mkWorld rest (evs ++ menu prompt items ++ [Print "No matches found"]))
    | found => choose prompt (ItemList found) (mkWorld rest (evs ++ menu prompt items))
    end /\
  (forall x, In x (search items (PyStr.lower q)) <->
             In x (item_seq items)
             /\ PyStr.contains (PyStr.lower x) (PyStr.lower q) = true) /\
  search (ItemList ["sda 100G"; "sdb 50G"]) (PyStr.lower "sdb") = ["sdb 50G"] /\
  search (ItemList ["sdb 50G"]) (PyStr.lower "x") = [] /\
  fst (choose "Device" (ItemList ["sda 100G"; "sdb 50G"]) (on_input ["/sdb"; "1"]))
    = Ok "sdb 50G" /\
  choose "Device" (ItemList ["sda 100G"; "sdb 50G"]) (mkWorld ("/sdb" :: "/x" :: rest) [])
    = choose "Device" (ItemList ["sdb 50G"])
        (mkWorld rest
           [Print "1) sda 100G"; Print "2) sdb 50G"; Prompt "Device (1-2 or /search): ";
            Print "1) sdb 50G"; Prompt "Device (1-1 or /search): ";
            Print "No matches found"]).
Proof.
  split; [|split; [|split; [|split; [|split]]]].
  - rewrite choose_unfold, choose_turn_search.
    now destruct (search items (PyStr.lower q)).
  - intros x. unfold search. rewrite filter_In. reflexivity.
  - reflexivity.
  - reflexivity.
  - vm_compute. reflexivity.
  - rewrite choose_unfold, choose_turn_search.
    change (search (ItemList ["sda 100G"; "sdb 50G"]) (PyStr.lower "sdb")) with ["sdb 50G"].
    cbv iota. rewrite choose_unfold, choose_turn_search.
    change (search (ItemList ["sdb 50G"]) (PyStr.lower "x")) with (@nil string).
    cbv iota. reflexivity.
Qed.

(** Picking by number: a list pool hands back the item shown under that
    number; the set of time zones cannot be subscripted. *)
Lemma choose_index prompt items line n rest evs :
  PyStr.startswith line "/" = false ->
  PyStr.int line = Some n ->
  1 <= n <= len items ->
  choose prompt items (mkWorld (line :: rest) evs) =
  match items with
  | ItemSet _ =>
      (Raise (TypeError "'set' object is not subscriptable"),
       mkWorld rest (evs ++ menu prompt items))
  | ItemList l =>
      (Ok (nth (Z.to_nat (n - 1)) l EmptyString), mkWorld rest (evs ++ menu prompt items))
  end.
Proof.
  intros Hs Hn Hr. rewrite choose_unfold. unfold choose_turn.
  erewrite bind_ok by apply print_items_ok. cbn [stdin events].
  erewrite bind_ok by apply input_line. rewrite Hs, Hn.
  assert (G : (0 <=? n - 1) && (n - 1 <? len items) = true).
  { apply andb_true_iff. split; [apply Z.leb_le | apply Z.ltb_lt]; lia. }
  rewrite G. unfold menu. rewrite <- !app_assoc.
  destruct items as [l|l].
  - reflexivity.
  - unfold subscript. cbv zeta.
    assert (H0 : (n - 1 <? 0) = false) by (apply Z.ltb_ge; lia).
    rewrite H0, G.
    assert (Hlt : (Z.to_nat (n - 1) < List.length l)%nat) by (unfold len in Hr; simpl in Hr; lia).
    destruct (nth_error l (Z.to_nat (n - 1))) as [x|] eqn:E.
    + erewrite (nth_error_nth l _ _ E). reflexivity.
    + apply nth_error_None in E. lia.
Qed.

(** ** Validated prompts *)

(** A validator that answers with a [bool], an [int] or a [str] ends
    [ask] on the first line, whatever the answer. *)
Lemma ask_one_line prompt chk line rest evs r w' :
  chk line (mkWorld rest (evs ++ [Prompt (prompt +++ ": ")])) = (Ok r, w') ->
  r <> VNone ->
  ask prompt (Some chk) (mkWorld (line :: rest) evs)
  = (Ok (match r with VBool true => VStr line | _ => r end), w').
Proof.
  intros Hc Hr. unfold ask, loop. cbn [stdin List.length iter].
  unfold ask_turn.
  assert (T : (value <- input (prompt +++ ": ");;
               result <- chk value;;
               match result with
               | VNone => print "Invalid input";; ret (inl tt)
               | VBool true => ret (inr (VStr value))
               | _ => ret (inr result)
               end) (mkWorld (line :: rest) evs)
              = (Ok (inr (match r with VBool true => VStr line | _ => r end)), w')).
  { erewrite bind_ok by apply input_line. erewrite bind_ok by exact Hc.
    destruct r as [|[|]| |]; try reflexivity. congruence. }
  erewrite bind_ok by exact T. reflexivity.
Qed.

Lemma ask_valid_unix prompt line rest evs :
  ask prompt (Some VALID_UNIX) (mkWorld (line :: rest) evs)
  = (Ok (if PyStr.isalnum line then VStr line else VBool false),
     mkWorld rest (evs ++ [Prompt (prompt +++ ": ")])).
Proof.
  erewrite ask_one_line; [|reflexivity|discriminate].
  destruct line as [|c s]; [reflexivity|].
  replace (0 <? Z.of_nat (String.length (String c s))) with true
    by (symmetry; apply Z.ltb_lt; simpl String.length; lia).
  rewrite andb_true_r. now destruct (PyStr.isalnum (String c s)).
Qed.


(** The same for every line: with a validator that never answers [None]
    and reads nothing itself, [ask] takes exactly one line. *)
Lemma ask_reads_one prompt chk line rest evs :
  (forall v w, stdin (snd (chk v w)) = stdin w /\ fst (chk v w) <> Ok VNone
               /\ fst (chk v w) <> OutOfFuel) ->
  stdin (snd (ask prompt (Some chk) (mkWorld (line :: rest) evs))) = rest /\
  fst (ask prompt (Some chk) (mkWorld (line :: rest) evs)) <> OutOfFuel.
Proof.
  intros H. unfold ask, loop. cbn [stdin List.length iter].
  unfold ask_turn, bind. rewrite input_line.
  specialize (H line (mkWorld rest (evs ++ [Prompt (prompt +++ ": ")]))).
  destruct (chk line _) as [[r|e|] w'].
  - cbn [fst snd stdin] in H. destruct H as (Hs & Hn & _).
    destruct r as [|[|]| |]; simpl; try (split; [assumption|discriminate]).
    congruence.
  - cbn [fst snd stdin] in *. split; [tauto|discriminate].
  - cbn [fst snd stdin] in *. exfalso. tauto.
Qed.

Lemma size_filter_answers v w :
  stdin (snd (size_filter v w)) = stdin w /\ fst (size_filter v w) <> Ok VNone
  /\ fst (size_filter v w) <> OutOfFuel.
Proof.
  unfold size_filter.
  destruct (SizeRe.re_match _) as [[num unit]|].
  - destruct (PyFloat.to_int _); simpl; repeat split; discriminate.
  - simpl. repeat split; discriminate.
Qed.

Lemma ask_size_reads_one prompt line rest evs :
  stdin (snd (ask_size prompt (mkWorld (line :: rest) evs))) = rest.
Proof. apply ask_reads_one. apply size_filter_answers. Qed.

Lemma ask_size_invalid prompt line rest evs :
  SizeRe.re_match (PyStr.upper (PyStr.strip line)) = None ->
  ask_size prompt (mkWorld (line :: rest) evs)
  = (Ok (VBool false), mkWorld rest (evs ++ [Prompt (prompt +++ ": "); size_hint])).
Proof.
  intros H. unfold ask_size.
  apply (ask_one_line prompt size_filter line rest evs (VBool false)); [|discriminate].
  unfold size_filter. rewrite H. unfold print, bind, emit, ret. cbn [stdin events].
  now rewrite <- app_assoc.
Qed.

(** C3 on the code: [False] is an [int] for [isinstance], so [ask]
    returns the validator's [False] instead of asking again.  Whatever the
    line, each validated prompt reads it, asks nothing more and returns:
    the line (or the size) when it is valid, [False] when it is not.  A
    bad size, a bad host name and a blank password leave the next line
    unread, and the [False] goes into the configuration. *)
Theorem ask_returns_false_on_invalid prompt line rest evs :
  ask prompt (Some VALID_UNIX) (mkWorld (line :: rest) evs)
  = (Ok (if PyStr.isalnum line then VStr line else VBool false),
     mkWorld rest (evs ++ [Prompt (prompt +++ ": ")])) /\
  ask prompt (Some (fun x => ret (VBool (PyStr.truthy (PyStr.strip x)))))
    (mkWorld (line :: rest) evs)
  = (Ok (if PyStr.truthy (PyStr.strip line) then VStr line else VBool false),
     mkWorld rest (evs ++ [Prompt (prompt +++ ": ")])) /\
  stdin (snd (ask_size prompt (mkWorld (line :: rest) evs))) = rest /\
  match SizeRe.re_match (PyStr.upper (PyStr.strip line)) with
  | None =>
      ask_size prompt (mkWorld (line :: rest) evs)
      = (Ok (VBool false), mkWorld rest (evs ++ [Prompt (prompt +++ ": "); size_hint]))
  | Some _ => True
  end /\
  ask_size "Size" (on_input ["abc"; "512"])
  = (Ok (VBool false), mkWorld ["512"] [Prompt "Size: "; size_hint]) /\
  ask "Hostname" (Some VALID_UNIX) (on_input ["my host"; "myhost"])
  = (Ok (VBool false), mkWorld ["myhost"] [Prompt "Hostname: "]) /\
  ask "Password" (Some (fun x => ret (VBool (PyStr.truthy (PyStr.strip x)))))
    (on_input ["   "; "secret"])
  = (Ok (VBool false), mkWorld ["secret"] [Prompt "Password: "]) /\
  fst (collect_general demo_env (on_input ["my host"; "/utc"; "1"; "bob"; " "; "y"; ""; "y"]))
  = Ok (mkGeneral "UTC" (VBool false) [mkUser (VStr "bob") (VBool false) true]).
Proof.
  split; [apply ask_valid_unix|].
  split.
  { rewrite (ask_one_line prompt _ line rest evs
               (VBool (PyStr.truthy (PyStr.strip line))) _ eq_refl); [|discriminate].
    now destruct (PyStr.truthy (PyStr.strip line)). }
  split; [apply ask_size_reads_one|].
  split.
  { destruct (SizeRe.re_match (PyStr.upper (PyStr.strip line))) eqn:E; [exact I|].
    now apply ask_size_invalid. }
  repeat split; vm_compute; reflexivity.
Qed.

Lemma choose_set_first prompt tz tzs rest evs :
  choose prompt (ItemSet (tz :: tzs)) (mkWorld ("1" :: rest) evs)
  = (Raise (TypeError "'set' object is not subscriptable"),
     mkWorld rest (evs ++ menu prompt (ItemSet (tz :: tzs)))).
Proof.
  rewrite (choose_index prompt (ItemSet (tz :: tzs)) "1" 1); [reflexivity..|].
  unfold len. cbn [item_seq List.length]. lia.
Qed.

(** C6 on the code: [collect_general] hands [choose] the set returned by
    [zoneinfo.available_timezones()].  Whatever the catalog holds,
    answering the time zone menu with the in-range number 1 reaches
    [items[index]] on a set and the wizard dies with a [TypeError].  After
    a search the pool is a list and the same answer works. *)
Theorem timezone_index_crashes tz tzs capture ok host rest evs :
  fst (collect_general (mkEnv (tz :: tzs) capture ok) (mkWorld (host :: "1" :: rest) evs))
  = Raise (TypeError "'set' object is not subscriptable") /\
  collect_general demo_env (on_input ["host"; "1"])
  = (Raise (TypeError "'set' object is not subscriptable"),
     mkWorld []
       [PrintRaw (ESC +++ "c"); Print "ARCH LINUX INSTALLER"; Print "[General]"; Print "";
        Prompt "Hostname: ";
        PrintRaw (ESC +++ "c"); Print "ARCH LINUX INSTALLER"; Print "[Timezone]"; Print "";
        Print "1) Europe/Paris"; Print "2) Europe/Berlin"; Print "3) UTC";
        Prompt "Timezone (1-3 or /search): "]) /\
  fst (choose "Timezone" (ItemSet (available_timezones demo_env)) (on_input ["/"; "1"]))
  = Ok "Europe/Paris".
Proof.
  split; [|split; vm_compute; reflexivity].
  unfold collect_general, loop. cbn [stdin List.length iter].
  erewrite bind_raise; [reflexivity|].
  unfold collect_general_turn.
  erewrite bind_ok by reflexivity.
  erewrite bind_ok by apply ask_valid_unix.
  erewrite bind_ok by reflexivity.
  cbn [available_timezones].
  erewrite bind_raise by apply choose_set_first. reflexivity.
Qed.

(** ** Collecting users *)

Lemma bind_inv {A B} (m : M A) (k : A -> M B) w b w' :
  bind m k w = (Ok b, w') ->
  exists a w1, m w = (Ok a, w1) /\ k a w1 = (Ok b, w').
Proof.
  unfold bind. destruct (m w) as [[a|e|] w1]; try discriminate.
  intros H. now exists a, w1.
Qed.

Lemma iter_invariant {S A} (body : S -> M (S + A)) (I : S -> Prop) (Q : A -> Prop) :
  (forall s w s' w', I s -> body s w = (Ok (inl s'), w') -> I s') ->
  (forall s w a w', I s -> body s w = (Ok (inr a), w') -> Q a) ->
  forall n s w a w', I s -> iter n body s w = (Ok a, w') -> Q a.
Proof.
  intros Hstep Hret. induction n as [|n IH]; intros s w a w' Hs E; [discriminate E|].
  simpl in E. apply bind_inv in E. destruct E as ([s'|b] & w1 & E1 & E2).
  - eapply IH; [|exact E2]. eapply Hstep; eassumption.
  - inversion E2; subst. eapply Hret; eassumption.
Qed.

Lemma isalnum_truthy s : PyStr.isalnum s = true -> PyStr.truthy s = true.
Proof. destruct s; [discriminate|reflexivity]. Qed.

(** [collect_user] answers [None] exactly on a first line that is not a
    non-empty alphanumeric string, empty or not; otherwise the line is
    the user's name. *)
Lemma collect_user_cases line rest evs :
  (PyStr.isalnum line = false /\
   collect_user (mkWorld (line :: rest) evs)
   = (Ok None, mkWorld rest (evs ++ [Prompt "Username: "]))) \/
  (PyStr.isalnum line = true /\
   forall r w', collect_user (mkWorld (line :: rest) evs) = (Ok r, w') ->
                exists pw sd, r = Some (mkUser (VStr line) pw sd)).
Proof.
  unfold collect_user. erewrite bind_ok by apply ask_valid_unix.
  destruct (PyStr.isalnum line) eqn:E.
  - right. split; [reflexivity|]. intros r w'.
    cbn [py_truthy]. rewrite (isalnum_truthy _ E). cbn [negb].
    intros H. apply bind_inv in H. destruct H as (pw & w1 & _ & H).
    apply bind_inv in H. destruct H as (sd & w2 & _ & H).
    apply bind_inv in H. destruct H as (_ & w3 & _ & H).
    inversion H; subst. now exists pw, sd.
  - left. split; reflexivity.
Qed.


(** C5 on the code: the user loop ends on any name [ask] turns into
    [False], not only on an empty one: [collect_user] answers [None]
    exactly when the line is not a non-empty alphanumeric string.  Here
    "a b" is not alphanumeric: it is neither asked again nor stored, it
    ends the loop, and the lines meant for the next user stay unread. *)
Theorem collect_users_stops_on_invalid_name line rest evs :
  (collect_user (mkWorld (line :: rest) evs)
   = (Ok None, mkWorld rest (evs ++ [Prompt "Username: "]))
   <-> PyStr.isalnum line = false) /\
  PyStr.isalnum "a b" = false /\
  collect_users (on_input ["bob"; "pw"; "y"; "a b"; "carol"; "pw2"; "n"])
  = (Ok [mkUser (VStr "bob") (VStr "pw") true],
     mkWorld ["carol"; "pw2"; "n"]
       [PrintRaw (ESC +++ "c"); Print "ARCH LINUX INSTALLER"; Print "[Users]"; Print "";
        Prompt "Username: "; Prompt "Password: "; Prompt "Can bob use sudo? (Y/n) ";
        Print ""; Prompt "Username: "]).
Proof.
  split; [|split; vm_compute; reflexivity].
  destruct (collect_user_cases line rest evs) as [(Ha & Hc)|(Ha & Hc)].
  - split; [intros _; exact Ha | intros _; exact Hc].
  - split; [|congruence]. intros E. apply Hc in E. destruct E as (pw & sd & E).
    discriminate E.
Qed.

(** ** Rounding to binary64 *)

Module FloatFacts.

Import PyFloat.

Lemma pow2_pos x : 0 <= x -> 0 < 2 ^ x.
Proof. intros. apply Z.pow_pos_nonneg; lia. Qed.

Lemma pow2_split a b : 0 <= a -> 0 <= b -> 2 ^ (a + b) = 2 ^ a * 2 ^ b.
Proof. intros. apply Z.pow_add_r; assumption. Qed.

(** The rounded quotient is within half a unit of the exact one and not
    below its floor. *)
Lemma round_half_even_bounds x d :
  0 <= x -> 0 < d ->
  x / d <= round_half_even x d /\ 2 * round_half_even x d * d <= 2 * x + d.
Proof.
  intros Hx Hd. unfold round_half_even.
  pose proof (Z.div_mod x d ltac:(lia)) as E.
  pose proof (Z.mod_pos_bound x d Hd) as B.
  destruct (Z.ltb_spec (2 * (x mod d)) d); [split; nia|].
  destruct (Z.ltb_spec d (2 * (x mod d))); [split; nia|].
  destruct (Z.even (x / d)); split; nia.
Qed.

Lemma ilog2_ratio_spec n d :
  0 < n -> 0 < d ->
  (0 <= ilog2_ratio n d -> d * 2 ^ ilog2_ratio n d <= n) /\
  (ilog2_ratio n d < 0 -> d <= n * 2 ^ (- ilog2_ratio n d)) /\
  (ilog2_ratio n d + 1 <= 0 -> n * 2 ^ (- (ilog2_ratio n d + 1)) < d).
Proof.
  intros Hn Hd. unfold ilog2_ratio.
  pose proof (Z.log2_spec n Hn) as [An1 An2].
  pose proof (Z.log2_spec d Hd) as [Ad1 Ad2].
  pose proof (Z.log2_nonneg n) as Pa. pose proof (Z.log2_nonneg d) as Pb.
  rewrite <- Z.add_1_r in An2, Ad2.
  rewrite pow2_split in An2, Ad2 by lia. change (2 ^ 1) with 2 in *.
  set (a := Z.log2 n) in *. set (b := Z.log2 d) in *.
  pose proof (pow2_pos a Pa) as PA. pose proof (pow2_pos b Pb) as PB.
  destruct (Z.leb_spec 0 (a - b)) as [He|He].
  - assert (EA : 2 ^ a = 2 ^ b * 2 ^ (a - b)).
    { rewrite <- pow2_split by lia. f_equal. lia. }
    pose proof (pow2_pos (a - b) He) as PE.
    destruct (Z.leb_spec (d * 2 ^ (a - b)) n) as [T|T].
    + split; [intros _; exact T|]. split; intros; lia.
    + destruct (Z.eq_dec (a - b) 0) as [Z0|Z0].
      * rewrite Z0 in *. change (2 ^ 0) with 1 in *.
        replace (0 - 1) with (-1) by lia.
        split; [intros; lia|]. split; intros _.
        -- change (2 ^ (- -1)) with 2. nia.
        -- change (2 ^ (- (-1 + 1))) with 1. lia.
      * assert (E2 : 2 ^ (a - b) = 2 * 2 ^ (a - b - 1)).
        { replace (a - b) with (1 + (a - b - 1)) at 1 by lia.
          rewrite pow2_split by lia. reflexivity. }
        pose proof (pow2_pos (a - b - 1) ltac:(lia)) as PE1.
        split; [intros _; nia|]. split; intros; lia.
  - assert (EB : 2 ^ b = 2 ^ a * 2 ^ (- (a - b))).
    { rewrite <- pow2_split by lia. f_equal. lia. }
    pose proof (pow2_pos (- (a - b)) ltac:(lia)) as PE.
    destruct (Z.leb_spec d (n * 2 ^ (- (a - b)))) as [T|T].
    + split; [intros; lia|]. split; [intros _; exact T|]. intros _.
      assert (E2 : 2 ^ (- (a - b)) = 2 * 2 ^ (- (a - b + 1))).
      { replace (- (a - b)) with (1 + (- (a - b + 1))) at 1 by lia.
        rewrite pow2_split by lia. reflexivity. }
      pose proof (pow2_pos (- (a - b + 1)) ltac:(lia)) as PE1.
      nia.
    + split; [intros; lia|]. split; intros _.
      * replace (- (a - b - 1)) with (1 + (- (a - b))) by lia.
        rewrite pow2_split by lia. change (2 ^ 1) with 2. nia.
      * replace (- (a - b - 1 + 1)) with (- (a - b)) by lia. exact T.
Qed.

(** The double nearest to [n / d], scaled by [2^j] and truncated, is the
    exact [floor (2^j * n / d)] as long as [2^j * n] fits in 53 bits. *)
Lemma of_ratio_floor n d j :
  0 < n -> 0 < d -> 0 <= j <= 10 -> 2 ^ j * n < 2 ^ 53 ->
  exists m t,
    of_ratio n d = Finite m (- t) /\ j <= t /\ 0 <= m /\
    m / 2 ^ (t - j) = (2 ^ j * n) / d.
Proof.
  intros Hn Hd Hj Hb.
  pose proof (ilog2_ratio_spec n d Hn Hd) as (S1 & S2 & S3).
  pose proof (pow2_pos j ltac:(lia)) as PJ.
  assert (Hn53 : n < 2 ^ 53) by nia.
  unfold of_ratio. replace (n =? 0) with false by (symmetry; apply Z.eqb_neq; lia).
  unfold quantum_exp. set (L := ilog2_ratio n d) in *.
  set (F := (2 ^ j * n) / d).
  assert (HF : F * d <= 2 ^ j * n < (F + 1) * d).
  { unfold F. pose proof (Z.div_mod (2 ^ j * n) d ltac:(lia)).
    pose proof (Z.mod_pos_bound (2 ^ j * n) d Hd). nia. }
  destruct (Z.le_gt_cases (-1022) L) as [HL|HL].
  - (* normal range *)
    rewrite Z.max_l by lia.
    assert (HL43 : L < 53).
    { destruct (Z.lt_ge_cases L 53) as [?|G]; [assumption|exfalso].
      specialize (S1 ltac:(lia)).
      assert (2 ^ 53 <= 2 ^ L) by (apply Z.pow_le_mono_r; lia). nia. }
    set (t := 52 - L).
    assert (Ht : 0 <= t) by (unfold t; lia).
    pose proof (pow2_pos t Ht) as PT.
    assert (HX : d * 2 ^ 52 <= n * 2 ^ t).
    { unfold t. destruct (Z.le_gt_cases 0 L) as [G|G].
      - specialize (S1 G).
        replace 52 with (L + (52 - L)) at 1 by lia. rewrite pow2_split by lia.
        pose proof (pow2_pos (52 - L) ltac:(lia)). nia.
      - specialize (S2 G).
        replace (52 - L) with (- L + 52) by lia. rewrite pow2_split by lia.
        pose proof (pow2_pos 52 ltac:(lia)). nia. }
    assert (Hjt : j <= t).
    { destruct (Z.le_gt_cases j t); [assumption|exfalso].
      assert (E2 : 2 ^ j = 2 * 2 ^ (j - 1)).
      { replace j with (1 + (j - 1)) at 1 by lia. rewrite pow2_split by lia. reflexivity. }
      assert (2 ^ t <= 2 ^ (j - 1)) by (apply Z.pow_le_mono_r; lia).
      pose proof (pow2_pos (j - 1) ltac:(lia)).
      change (2 ^ 52) with 4503599627370496 in *.
      change (2 ^ 53) with 9007199254740992 in *. nia. }
    assert (EM : (if 0 <=? L - 52 then round_half_even n (d * 2 ^ (L - 52))
                  else round_half_even (n * 2 ^ (- (L - 52))) d)
                 = round_half_even (n * 2 ^ t) d).
    { destruct (Z.leb_spec 0 (L - 52)).
      - assert (L = 52) by lia. subst t. replace (L - 52) with 0 by lia.
        replace (52 - L) with 0 by lia. change (2 ^ 0) with 1. now rewrite !Z.mul_1_r.
      - f_equal. f_equal. f_equal. unfold t. lia. }
    rewrite EM.
    assert (EO : (0 <=? L - 52) && (2 ^ 1024 <=? round_half_even (n * 2 ^ t) d * 2 ^ (L - 52))
                 = false).
    { destruct (Z.leb_spec 0 (L - 52)); [|reflexivity]. cbn [andb].
      apply Z.leb_gt. assert (L = 52) by lia. replace (L - 52) with 0 by lia.
      change (2 ^ 0) with 1. rewrite Z.mul_1_r.
      pose proof (round_half_even_bounds (n * 2 ^ t) d ltac:(nia) Hd) as (_ & R2).
      assert (t = 0) by (unfold t; lia).
      replace (2 ^ t) with 1 in * by (subst t; replace (52 - L) with 0 by lia; reflexivity).
      apply Z.lt_trans with (2 ^ 54); [|reflexivity].
      change (2 ^ 53) with 9007199254740992 in *.
      change (2 ^ 54) with 18014398509481984. nia. }
    rewrite EO.
    exists (round_half_even (n * 2 ^ t) d), t.
    split; [f_equal; unfold t; lia|]. split; [exact Hjt|].
    pose proof (round_half_even_bounds (n * 2 ^ t) d ltac:(nia) Hd) as (R1 & R2).
    set (m := round_half_even (n * 2 ^ t) d) in *.
    assert (ET : 2 ^ t = 2 ^ j * 2 ^ (t - j)).
    { rewrite <- pow2_split by lia. f_equal. lia. }
    pose proof (pow2_pos (t - j) ltac:(lia)) as PP.
    set (P := 2 ^ (t - j)) in *.
    assert (Hlow : F * P <= m).
    { apply Z.le_trans with (n * 2 ^ t / d); [|exact R1].
      apply Z.div_le_lower_bound; [exact Hd|]. rewrite ET. nia. }
    assert (HD2 : d < 2 * P).
    { change (2 ^ 52) with 4503599627370496 in *.
      change (2 ^ 53) with 9007199254740992 in *. rewrite ET in HX. nia. }
    assert (Hup : m < (F + 1) * P).
    { rewrite ET in R2. nia. }
    assert (HF0 : 0 <= F) by (unfold F; apply Z.div_pos; nia).
    split; [nia|].
    symmetry. apply Z.div_unique with (m - F * P); lia.
  - (* subnormal range *)
    rewrite Z.max_r by lia. change (-1022 - 52) with (-1074).
    change (0 <=? -1074) with false. cbn [andb]. change (- -1074) with 1074.
    exists (round_half_even (n * 2 ^ 1074) d), 1074.
    split; [reflexivity|]. split; [lia|].
    specialize (S3 ltac:(lia)).
    assert (HS : n * 2 ^ 1022 < d).
    { apply Z.le_lt_trans with (n * 2 ^ (- (L + 1))); [|exact S3].
      apply Z.mul_le_mono_nonneg_l; [lia|]. apply Z.pow_le_mono_r; lia. }
    pose proof (pow2_pos 1074 ltac:(lia)) as P1074.
    pose proof (round_half_even_bounds (n * 2 ^ 1074) d ltac:(nia) Hd) as (R1 & R2).
    set (m := round_half_even (n * 2 ^ 1074) d) in *.
    assert (E1074 : 2 ^ 1074 = 2 ^ 1022 * 2 ^ 52) by (rewrite <- pow2_split by lia; reflexivity).
    pose proof (pow2_pos 1022 ltac:(lia)) as P1022.
    assert (Hm0 : 0 <= m).
    { apply Z.le_trans with (n * 2 ^ 1074 / d); [|exact R1]. apply Z.div_pos; nia. }
    assert (Hm : m <= 2 ^ 52).
    { rewrite E1074 in R2. change (2 ^ 52) with 4503599627370496 in *. nia. }
    split; [exact Hm0|].
    assert (EP : 2 ^ (1074 - j) = 2 ^ (1021 - j) * 2 ^ 53).
    { rewrite <- pow2_split by lia. f_equal. lia. }
    pose proof (pow2_pos (1021 - j) ltac:(lia)) as PQ.
    assert (HF0 : F = 0).
    { unfold F. apply Z.div_small.
      assert (2 ^ j <= 2 ^ 1022) by (apply Z.pow_le_mono_r; lia). nia. }
    rewrite HF0. apply Z.div_small. rewrite EP.
    change (2 ^ 52) with 4503599627370496 in *. change (2 ^ 53) with 9007199254740992. nia.
Qed.

End FloatFacts.

(** ** The size pattern *)

Module SizeReFacts.

Import SizeRe.

Lemma append_assoc (a b c : string) : (a +++ b) +++ c = a +++ b +++ c.
Proof. induction a; simpl; congruence. Qed.

Lemma append_nil_r (a : string) : a +++ EmptyString = a.
Proof. induction a; simpl; congruence. Qed.

Lemma forallb_app f a b :
  PyStr.forallb f (a +++ b) = PyStr.forallb f a && PyStr.forallb f b.
Proof. induction a as [|c a IH]; simpl; [reflexivity|]. now rewrite IH, andb_assoc. Qed.

(** [\d+] is a non-empty run of digits. *)
Lemma plus_digit_iff s :
  Matches (Plus Digit) s <-> s <> EmptyString /\ PyStr.forallb PyStr.is_digit s = true.
Proof.
  split.
  - intros H. remember (Plus Digit) as r eqn:Er.
    induction H as [ | | | | | | r s H _ | r s1 s2 H _ H2 IH2]; inversion Er; subst.
    + inversion H as [c Hc | | | | | | | ]; subst.
      split; [discriminate|]. simpl. now rewrite Hc.
    + inversion H as [c Hc | | | | | | | ]; subst.
      destruct (IH2 eq_refl) as [_ I2].
      split; [discriminate|]. simpl. now rewrite Hc, I2.
  - revert s. induction s as [|c s IH]; intros [Hne Hall]; [congruence|].
    simpl in Hall. apply andb_true_iff in Hall. destruct Hall as [Hc Hs].
    destruct s as [|c' s'].
    + apply MPlusOne. now constructor.
    + change (String c (String c' s')) with (String c EmptyString +++ String c' s').
      apply MPlusMore; [now constructor|]. apply IH. split; [discriminate|exact Hs].
Qed.

Lemma span_digits_spec s :
  let (d, r) := span_digits s in
  s = d +++ r /\ PyStr.forallb PyStr.is_digit d = true /\ stops r.
Proof.
  induction s as [|c s IH]; simpl; [auto|].
  destruct (PyStr.is_digit c) eqn:E.
  - destruct (span_digits s) as [d r]. destruct IH as (-> & Hd & Hr).
    simpl. rewrite E. auto.
  - simpl. auto.
Qed.

Lemma span_digits_app d r :
  PyStr.forallb PyStr.is_digit d = true -> stops r -> span_digits (d +++ r) = (d, r).
Proof.
  induction d as [|c d IH]; intros Hd Hr.
  - destruct r as [|c r]; simpl in *; [reflexivity|]. now rewrite Hr.
  - simpl in Hd. apply andb_true_iff in Hd. destruct Hd as [Hc Hd].
    simpl. rewrite Hc, IH by assumption. reflexivity.
Qed.

Lemma last_is_app f a c :
  last_is f (a +++ String c EmptyString) = f c.
Proof.
  induction a as [|x a IH]; [reflexivity|].
  simpl. destruct (a +++ String c EmptyString) eqn:E; [|exact IH].
  destruct a; discriminate E.
Qed.

Lemma at_end_cases r :
  at_end r = true -> r = EmptyString \/ r = NL.
Proof.
  destruct r as [|c [|c' r]]; simpl; auto; [|discriminate].
  intros H. apply Ascii.eqb_eq in H. subst. now right.
Qed.

(** What a match looks like: the two groups, then nothing or one newline. *)
Lemma re_match_some v num unit :
  re_match v = Some (num, unit) ->
  exists tail, v = num +++ unit +++ tail /\ (tail = EmptyString \/ tail = NL) /\
               Matches number_regex num /\ Matches unit_regex unit.
Proof.
  unfold re_match.
  pose proof (span_digits_spec v) as S1.
  destruct (span_digits v) as [ip r1]. destruct S1 as (-> & Hip & Hr1).
  destruct ip as [|c ip]; [discriminate|].
  set (ds := String c ip) in *.
  assert (Mip : Matches (Plus Digit) ds) by (apply plus_digit_iff; split; [discriminate|exact Hip]).
  assert (Fin : forall n r2,
             Matches number_regex n ->
             match r2 with
             | String "M" r3 => if at_end r3 then Some (n, "M") else None
             | String "G" r3 => if at_end r3 then Some (n, "G") else None
             | _ => if at_end r2 then Some (n, "") else None
             end = Some (num, unit) ->
             exists tail, n +++ r2 = num +++ unit +++ tail /\
                          (tail = EmptyString \/ tail = NL) /\
                          Matches number_regex num /\ Matches unit_regex unit).
  { intros n r2 Mn H.
    assert (D : (exists r3, r2 = String "M" r3 /\ at_end r3 = true /\ num = n /\ unit = "M")
             \/ (exists r3, r2 = String "G" r3 /\ at_end r3 = true /\ num = n /\ unit = "G")
             \/ (at_end r2 = true /\ num = n /\ unit = "")).
    { destruct r2 as [|x r3].
      - right. right. simpl in H. inversion H. auto.
      - destruct (Ascii.eqb_spec x "M"%char) as [->|NM].
        + left. exists r3. destruct (at_end r3); inversion H. auto.
        + destruct (Ascii.eqb_spec x "G"%char) as [->|NG].
          * right. left. exists r3. destruct (at_end r3); inversion H. auto.
          * right. right.
            assert (H' : (if at_end (String x r3) then Some (n, "") else None)
                         = Some (num, unit)).
            { destruct x as [[|] [|] [|] [|] [|] [|] [|] [|]]; try exact H;
                exfalso; (apply NM; reflexivity) || (apply NG; reflexivity). }
            destruct (at_end (String x r3)); inversion H'. auto. }
    destruct D as [(r3 & -> & E & -> & ->)|[(r3 & -> & E & -> & ->)|(E & -> & ->)]].
    - exists r3. split; [reflexivity|]. split; [now apply at_end_cases|].
      split; [exact Mn|]. apply MOptSome. constructor. simpl. auto.
    - exists r3. split; [reflexivity|]. split; [now apply at_end_cases|].
      split; [exact Mn|]. apply MOptSome. constructor. simpl. auto.
    - exists r2. split; [reflexivity|]. split; [now apply at_end_cases|].
      split; [exact Mn|]. apply MOptNone. }
  assert (Mint : Matches number_regex ds).
  { rewrite <- (append_nil_r ds). apply MCat; [exact Mip | apply MOptNone]. }
  assert (Plain : forall r,
             (let (n, r2) := (ds, r) in
              match r2 with
              | String "M" r3 => if at_end r3 then Some (n, "M") else None
              | String "G" r3 => if at_end r3 then Some (n, "G") else None
              | _ => if at_end r2 then Some (n, "") else None
              end) = Some (num, unit) ->
             exists tail, ds +++ r = num +++ unit +++ tail /\
                          (tail = EmptyString \/ tail = NL) /\
                          Matches number_regex num /\ Matches unit_regex unit).
  { intros r H. now apply Fin. }
  destruct r1 as [|x r].
  - exact (Plain EmptyString).
  - destruct (Ascii.eqb_spec x "."%char) as [->|ND].
    + pose proof (span_digits_spec r) as S2.
      destruct (span_digits r) as [fp r']. destruct S2 as (-> & Hfp & Hr').
      destruct fp as [|f fp].
      * exact (Plain (String "." r')).
      * intros H. apply Fin in H.
        -- destruct H as (tail & E & Ht & Mn & Mu). exists tail.
           split; [|auto]. rewrite <- E. rewrite append_assoc. reflexivity.
        -- apply MCat; [exact Mip|]. apply MOptSome.
           change (String "." (String f fp))
             with (String "." EmptyString +++ String f fp).
           apply MCat; [constructor|]. apply plus_digit_iff. split; [discriminate|exact Hfp].
    + intros H. apply (Plain (String x r)).
      destruct x as [[|] [|] [|] [|] [|] [|] [|] [|]]; try exact H.
      exfalso. apply ND. reflexivity.
Qed.

Lemma number_regex_inv num :
  Matches number_regex num ->
  exists ds, ds <> EmptyString /\ PyStr.forallb PyStr.is_digit ds = true /\
    (num = ds \/
     exists fs, fs <> EmptyString /\ PyStr.forallb PyStr.is_digit fs = true /\
                num = ds +++ String "." fs).
Proof.
  intros H. inversion H as [ | | | r1 r2 ds o Hds Ho | | | | ]; subst.
  apply plus_digit_iff in Hds. destruct Hds as [Hne Hd].
  exists ds. split; [exact Hne|]. split; [exact Hd|].
  inversion Ho as [ | | | | r | r o' Hfrac | | ]; subst.
  - left. apply append_nil_r.
  - right. inversion Hfrac as [ | | | r1 r2 dot fs Hdot Hfs | | | | ]; subst.
    inversion Hdot; subst. apply plus_digit_iff in Hfs. destruct Hfs as [Hfne Hfd].
    exists fs. auto.
Qed.

Lemma unit_regex_inv unit :
  Matches unit_regex unit -> unit = "" \/ unit = "M" \/ unit = "G".
Proof.
  intros H. inversion H as [ | | | | r | r u Hu | | ]; subst; [now left|].
  inversion Hu as [ | | c l Hin | | | | | ]; subst.
  destruct Hin as [ <- | [ <- | [] ] ]; auto.
Qed.

(** The greedy scan finds every match, with the groups the pattern gives. *)
Lemma re_match_complete num unit :
  Matches number_regex num -> Matches unit_regex unit ->
  re_match (num +++ unit) = Some (num, unit).
Proof.
  intros Hn Hu. apply number_regex_inv in Hn. apply unit_regex_inv in Hu.
  destruct Hn as (ds & Hne & Hd & Hnum).
  assert (Su : stops unit) by (destruct Hu as [ -> | [ -> | -> ] ]; reflexivity).
  unfold re_match.
  destruct Hnum as [ -> | (fs & Hfne & Hfd & ->) ].
  - rewrite span_digits_app by assumption.
    destruct ds as [|c ds]; [congruence|].
    destruct Hu as [ -> | [ -> | -> ] ]; reflexivity.
  - rewrite append_assoc. cbn [String.append].
    rewrite span_digits_app by (assumption || reflexivity).
    destruct ds as [|c ds]; [congruence|].
    rewrite span_digits_app by assumption.
    destruct fs as [|f fs]; [congruence|].
    destruct Hu as [ -> | [ -> | -> ] ]; reflexivity.
Qed.

Lemma rstrip_last s : last_is PyStr.is_space (PyStr.rstrip s) = false.
Proof.
  induction s as [|c s IH]; [reflexivity|].
  simpl. destruct (PyStr.rstrip s) as [|c' r'] eqn:E.
  - destruct (PyStr.is_space c) eqn:Ec; simpl; [reflexivity|exact Ec].
  - exact IH.
Qed.

Lemma is_nl_upper c : is_nl (PyStr.upper_char c) = is_nl c.
Proof. destruct c as [[|] [|] [|] [|] [|] [|] [|] [|]]; reflexivity. Qed.

Lemma is_nl_space c : is_nl c = true -> PyStr.is_space c = true.
Proof. intros H. apply Ascii.eqb_eq in H. now subst. Qed.

Lemma last_is_upper s : last_is is_nl (PyStr.upper s) = last_is is_nl s.
Proof.
  induction s as [|c s IH]; [reflexivity|].
  destruct s as [|c' s']; [apply is_nl_upper|]. exact IH.
Qed.

Lemma last_is_nl_space s : last_is is_nl s = true -> last_is PyStr.is_space s = true.
Proof.
  induction s as [|c s IH]; [discriminate|].
  destruct s as [|c' s']; [apply is_nl_space|]. exact IH.
Qed.

(** After [strip] and [upper] there is no final newline for [$] to skip. *)
Lemma stripped_no_newline s : last_is is_nl (PyStr.upper (PyStr.strip s)) = false.
Proof.
  rewrite last_is_upper. destruct (last_is is_nl (PyStr.strip s)) eqn:E; [|reflexivity].
  apply last_is_nl_space in E. unfold PyStr.strip in E. now rewrite rstrip_last in E.
Qed.

(** On a string without a final newline the scanner accepts exactly the
    language of the pattern, and its groups are the two parts. *)
Lemma re_match_iff v num unit :
  last_is is_nl v = false ->
  (re_match v = Some (num, unit) <->
   v = num +++ unit /\ Matches number_regex num /\ Matches unit_regex unit).
Proof.
  intros Hv. split.
  - intros H. apply re_match_some in H. destruct H as (tail & E & [->| ->] & Mn & Mu).
    + rewrite append_nil_r in E. auto.
    + exfalso. rewrite <- append_assoc in E. rewrite E in Hv.
      unfold NL in Hv. rewrite last_is_app in Hv. discriminate Hv.
  - intros (-> & Mn & Mu). now apply re_match_complete.
Qed.

Lemma size_regex_iff v :
  Matches size_regex v <->
  exists num unit, v = num +++ unit /\ Matches number_regex num /\ Matches unit_regex unit.
Proof.
  split.
  - intros H. inversion H as [ | | | r1 r2 num unit Hn Hu | | | | ]; subst.
    now exists num, unit.
  - intros (num & unit & -> & Hn & Hu). now constructor.
Qed.

Lemma re_match_accepts v :
  last_is is_nl v = false ->
  (Matches size_regex v <-> re_match v <> None).
Proof.
  intros Hv. rewrite size_regex_iff. split.
  - intros (num & unit & H). apply (re_match_iff v num unit Hv) in H. congruence.
  - intros H. destruct (re_match v) as [[num unit]|] eqn:E; [|congruence].
    exists num, unit. now apply (re_match_iff v num unit Hv).
Qed.

End SizeReFacts.

(** ** The size parser *)

Module SizeFacts.

Import SizeReFacts.

Lemma digit_val_range c : PyStr.is_digit c = true -> 0 <= PyStr.digit_val c <= 9.
Proof.
  unfold PyStr.is_digit, PyStr.between, PyStr.digit_val. intros H.
  apply andb_true_iff in H. destruct H as [H1 H2].
  apply N.leb_le in H1. apply N.leb_le in H2. lia.
Qed.

Lemma digits_val_acc_nonneg s : forall acc,
  PyStr.forallb PyStr.is_digit s = true -> 0 <= acc -> 0 <= PyStr.digits_val_acc acc s.
Proof.
  induction s as [|c s IH]; intros acc Hs Hacc; [exact Hacc|].
  simpl in Hs. apply andb_true_iff in Hs. destruct Hs as [Hc Hs].
  cbn [PyStr.digits_val_acc]. apply IH; [exact Hs|].
  pose proof (digit_val_range c Hc). lia.
Qed.

Lemma split_dot_digits ds :
  PyStr.forallb PyStr.is_digit ds = true -> PyFloat.split_dot ds = (ds, EmptyString).
Proof.
  induction ds as [|c ds IH]; intros H; [reflexivity|].
  simpl in H. apply andb_true_iff in H. destruct H as [Hc Hs].
  simpl. destruct (Ascii.eqb_spec c "."%char) as [->|_]; [discriminate Hc|].
  now rewrite IH.
Qed.

Lemma split_dot_fraction ds fs :
  PyStr.forallb PyStr.is_digit ds = true ->
  PyFloat.split_dot (ds +++ String "." fs) = (ds, fs).
Proof.
  induction ds as [|c ds IH]; intros H; [reflexivity|].
  simpl in H. apply andb_true_iff in H. destruct H as [Hc Hs].
  simpl. destruct (Ascii.eqb_spec c "."%char) as [->|_]; [discriminate Hc|].
  now rewrite IH.
Qed.

Lemma number_parts num :
  Matches number_regex num -> 0 <= significand num /\ 0 < denominator num.
Proof.
  intros H. apply number_regex_inv in H.
  destruct H as (ds & _ & Hd & [ -> | (fs & _ & Hf & ->) ]);
    unfold significand, denominator.
  - rewrite split_dot_digits by assumption. split; [|reflexivity].
    apply digits_val_acc_nonneg; [|lia]. rewrite forallb_app, Hd. reflexivity.
  - rewrite split_dot_fraction by assumption. split.
    + apply digits_val_acc_nonneg; [|lia]. now rewrite forallb_app, Hd, Hf.
    + apply Z.pow_pos_nonneg; lia.
Qed.

Lemma of_string_ratio num :
  PyFloat.of_string num = PyFloat.of_ratio (significand num) (denominator num).
Proof.
  unfold PyFloat.of_string, significand, denominator.
  now destruct (PyFloat.split_dot num).
Qed.

(** [int(float(n/d))] and [int(float(n/d) * 1024)] are exact while the
    scaled numerator fits in 53 bits. *)
Lemma to_int_scaled n d unit :
  0 <= n -> 0 < d -> n * scale unit < 2 ^ 53 ->
  PyFloat.to_int (if String.eqb unit "G"
                  then PyFloat.mul1024 (PyFloat.of_ratio n d)
                  else PyFloat.of_ratio n d)
  = Some (Z.quot (n * scale unit) d).
Proof.
  intros Hn Hd Hb. unfold scale in *.
  destruct (Z.eq_dec n 0) as [->|Hn0].
  { unfold PyFloat.of_ratio. cbn [Z.eqb].
    destruct (String.eqb unit "G"); simpl; now rewrite ?Z.quot_0_l by lia. }
  destruct (String.eqb unit "G").
  - destruct (FloatFacts.of_ratio_floor n d 10 ltac:(lia) Hd ltac:(lia))
      as (m & t & E & Ht & Hm & Hq).
    { change (2 ^ 10) with 1024. lia. }
    rewrite E. unfold PyFloat.mul1024.
    change (2 ^ 10) with 1024 in Hq.
    rewrite Z.quot_div_nonneg by lia. rewrite (Z.mul_comm n 1024), <- Hq.
    destruct (Z.eq_dec t 10) as [->|Hne].
    + change (Z.opp 10 + 10) with 0. change (10 - 10) with 0 in *.
      change (2 ^ 0) with 1 in *. rewrite Z.div_1_r in *.
      assert (Hlt : m < 2 ^ 1024).
      { rewrite Hq. apply Z.le_lt_trans with (1024 * n).
        - apply Z.div_le_upper_bound; [exact Hd|]. nia.
        - apply Z.lt_trans with (2 ^ 53); [lia|reflexivity]. }
      rewrite Z.mul_1_r.
      replace (2 ^ 1024 <=? m) with false by (symmetry; apply Z.leb_gt; exact Hlt).
      rewrite andb_false_r. cbn [PyFloat.to_int].
      change (0 <=? 0) with true. cbv iota. now rewrite Z.mul_1_r.
    + replace (0 <=? - t + 10) with false by (symmetry; apply Z.leb_gt; lia).
      cbn [andb PyFloat.to_int].
      replace (0 <=? - t + 10) with false by (symmetry; apply Z.leb_gt; lia).
      replace (- (- t + 10)) with (t - 10) by lia.
      rewrite Z.quot_div_nonneg; [reflexivity|exact Hm|].
      apply Z.pow_pos_nonneg; lia.
  - destruct (FloatFacts.of_ratio_floor n d 0 ltac:(lia) Hd ltac:(lia))
      as (m & t & E & Ht & Hm & Hq).
    { change (2 ^ 0) with 1. lia. }
    rewrite E. change (2 ^ 0) with 1 in Hq. rewrite Z.mul_1_l, Z.sub_0_r in Hq.
    rewrite Z.mul_1_r, Z.quot_div_nonneg by lia. rewrite <- Hq.
    cbn [PyFloat.to_int].
    destruct (Z.eq_dec t 0) as [->|Hne].
    + change (Z.opp 0) with 0. change (0 <=? 0) with true. cbv iota.
      change (2 ^ 0) with 1. now rewrite Z.mul_1_r, Z.div_1_r.
    + replace (0 <=? - t) with false by (symmetry; apply Z.leb_gt; lia).
      rewrite Z.opp_involutive.
      rewrite Z.quot_div_nonneg; [reflexivity|exact Hm|].
      apply Z.pow_pos_nonneg; lia.
Qed.

End SizeFacts.

Lemma size_filter_rejects s w :
  SizeRe.re_match (PyStr.upper (PyStr.strip s)) = None ->
  size_filter s w = (Ok (VBool false), mkWorld (stdin w) (events w ++ [size_hint])).
Proof. intros H. unfold size_filter. now rewrite H. Qed.

(** C10, as amended: [size_filter] strips and upper-cases its input and
    answers [False], after a hint, exactly when the result does not match
    [^(\d+(\.\d+)?)([MG]?)$].  For a match whose digits, read as one
    integer and multiplied by 1024 under [G], stay below [2^53], the
    answer is the numeric part, times 1024 under [G], truncated toward
    zero: 512 for "512", 1024 for "1G", 1536 for "1.5G", 512 for "512.9".
    "abc" is invalid. *)
Theorem size_filter_spec s w :
  (Matches size_regex (PyStr.upper (PyStr.strip s))
   <-> fst (size_filter s w) <> Ok (VBool false)) /\
  (~ Matches size_regex (PyStr.upper (PyStr.strip s)) ->
   size_filter s w = (Ok (VBool false), mkWorld (stdin w) (events w ++ [size_hint]))) /\
  (forall num unit,
      PyStr.upper (PyStr.strip s) = num +++ unit ->
      Matches number_regex num -> Matches unit_regex unit ->
      significand num * scale unit < 2 ^ 53 ->
      size_filter s w = (Ok (VInt (exact_mb num unit)), w)) /\
  size_filter "512" w = (Ok (VInt 512), w) /\
  size_filter "1G" w = (Ok (VInt 1024), w) /\
  size_filter "1.5G" w = (Ok (VInt 1536), w) /\
  size_filter "512.9" w = (Ok (VInt 512), w) /\
  fst (size_filter "abc" w) = Ok (VBool false).
Proof.
  pose proof (SizeReFacts.stripped_no_newline s) as Hnl.
  pose proof (SizeReFacts.re_match_accepts _ Hnl) as Hacc.
  split; [|split; [|split]].
  - rewrite Hacc. unfold size_filter.
    destruct (SizeRe.re_match (PyStr.upper (PyStr.strip s))) as [[num unit]|].
    + split; [intros _|intros _; discriminate].
      destruct (PyFloat.to_int _); simpl; discriminate.
    + split; [congruence|]. simpl. congruence.
  - intros H. apply size_filter_rejects.
    destruct (SizeRe.re_match (PyStr.upper (PyStr.strip s))) eqn:E; [|reflexivity].
    exfalso. apply H, Hacc. congruence.
  - intros num unit Ev Hn Hu Hb.
    assert (E : SizeRe.re_match (PyStr.upper (PyStr.strip s)) = Some (num, unit)).
    { apply SizeReFacts.re_match_iff; auto. }
    unfold size_filter. rewrite E, SizeFacts.of_string_ratio.
    destruct (SizeFacts.number_parts num Hn) as [H0 Hd].
    rewrite SizeFacts.to_int_scaled by assumption. reflexivity.
  - repeat split; reflexivity.
Qed.

Lemma size_filter_spec_witness :
  PyStr.upper (PyStr.strip " 1.5g ") = "1.5" +++ "G" /\
  significand "1.5" * scale "G" < 2 ^ 53 /\
  exact_mb "1.5" "G" = 1536 /\
  size_filter " 1.5g " (on_input []) = (Ok (VInt (exact_mb "1.5" "G")), on_input []).
Proof.
  split; [reflexivity|]. split; [reflexivity|]. split; [reflexivity|].
  apply (proj1 (proj2 (proj2 (size_filter_spec " 1.5g " (on_input [])))) "1.5" "G").
  - reflexivity.
  - apply (SizeReFacts.re_match_iff "1.5G" "1.5" "G"); reflexivity.
  - apply (SizeReFacts.re_match_iff "1.5G" "1.5" "G"); reflexivity.
  - reflexivity.
Defined.

(** A numeric part too large for a [float] becomes infinity and [int]
    raises [OverflowError], which [ask] does not catch. *)
Lemma size_filter_overflow w :
  size_filter ("1000000000000000000000000000000000000000000000000000000000000000000000000000000000000000000000000000000000000000000000000000000000000000000000000000000000000000000000000000000000000000000000000000000000000000000000000000000000000000000000000000000000000000000000000000000000000000000000000000000000000000000000G") w = (Raise OverflowError, w).
Proof. reflexivity. Qed.

(** C10 as stated fails: the numeric part goes through a binary64
    [float] before it is scaled and truncated.  "9007199254740993"
    ([2^53 + 1]) matches the pattern and comes back as 9007199254740992;
    "0.99999999999999999G" matches, is worth 1023 MB truncated, and comes
    back as 1024. *)
Lemma size_filter_counterexample :
  (Matches size_regex (PyStr.upper (PyStr.strip "9007199254740993")) /\
   exact_mb "9007199254740993" "" = 9007199254740993 /\
   size_filter "9007199254740993" (on_input [])
   = (Ok (VInt 9007199254740992), on_input [])) /\
  (Matches size_regex (PyStr.upper (PyStr.strip "0.99999999999999999G")) /\
   exact_mb "0.99999999999999999" "G" = 1023 /\
   size_filter "0.99999999999999999G" (on_input []) = (Ok (VInt 1024), on_input [])).
Proof.
  split.
  - split; [|split; reflexivity].
    apply SizeReFacts.re_match_accepts; [reflexivity|]. vm_compute. discriminate.
  - split; [|split; reflexivity].
    apply SizeReFacts.re_match_accepts; [reflexivity|]. vm_compute. discriminate.
Qed.

(** ** Termination on a finite standard input *)

Lemma terminates_ret {A} (a : A) : terminates (ret a).
Proof. intros w. discriminate. Qed.

Lemma terminates_raise {A} e : terminates (@raise A e).
Proof. intros w. discriminate. Qed.

Lemma terminates_emit ev : terminates (emit ev).
Proof. intros w. discriminate. Qed.

Lemma terminates_input prompt : terminates (input prompt).
Proof. intros w. unfold input. destruct (stdin w); discriminate. Qed.

Lemma terminates_bind {A B} (m : M A) (k : A -> M B) :
  terminates m -> (forall a, terminates (k a)) -> terminates (bind m k).
Proof.
  intros Hm Hk w. unfold bind. specialize (Hm w).
  destruct (m w) as [[a|e|] w1]; simpl in *; [apply Hk|discriminate|now exfalso].
Qed.

Lemma terminates_try {A} (m h : M A) :
  terminates m -> terminates h -> terminates (try_except m h).
Proof.
  intros Hm Hh w. unfold try_except. specialize (Hm w).
  destruct (m w) as [[a|e|] w1]; simpl in *; [discriminate|apply Hh|exact Hm].
Qed.

Lemma terminates_loop {S A} (body : S -> M (S + A)) s :
  (forall s, reads (body s)) -> (forall s, terminates (body s)) -> terminates (loop body s).
Proof. intros Hr Ht w. apply loop_total; [exact Hr|]. intros s' w'. apply Ht. Qed.

Ltac terminates_step :=
  first
    [ apply terminates_ret
    | apply terminates_raise
    | apply terminates_input
    | apply terminates_emit
    | apply terminates_bind; [|intros ?]
    | match goal with
      | |- terminates (match ?x with _ => _ end) => destruct x
      end ].

Ltac keeps_step :=
  first
    [ apply keeps_ret
    | apply keeps_raise
    | apply keeps_emit
    | apply reads_keeps, reads_input
    | apply keeps_bind; [|intros ?]
    | match goal with
      | |- keeps (match ?x with _ => _ end) => destruct x
      end ].

Lemma terminates_print_items l : forall i, terminates (print_items i l).
Proof. intros i w. rewrite print_items_ok. discriminate. Qed.

Lemma terminates_choose prompt items : terminates (choose prompt items).
Proof.
  unfold choose. apply terminates_loop; [apply reads_choose_turn|].
  intros pool. unfold choose_turn.
  apply terminates_bind; [apply terminates_print_items|]. intros _.
  repeat terminates_step. unfold subscript. destruct pool; cbv zeta; repeat terminates_step.
Qed.

Lemma reads_ask_turn prompt check u :
  (forall chk v, check = Some chk -> keeps (chk v)) -> reads (ask_turn prompt check u).
Proof.
  intros Hc. unfold ask_turn. apply reads_bind_l; [apply reads_input|]. intros v.
  destruct check as [chk|]; [|apply keeps_ret].
  apply keeps_bind; [now apply Hc|]. intros r. repeat keeps_step.
Qed.

Lemma reads_ask prompt check :
  (forall chk v, check = Some chk -> keeps (chk v)) -> reads (ask prompt check).
Proof. intros Hc. unfold ask. apply loop_reads. intros u. now apply reads_ask_turn. Qed.

Lemma terminates_ask prompt check :
  (forall chk v, check = Some chk -> keeps (chk v) /\ terminates (chk v)) ->
  terminates (ask prompt check).
Proof.
  intros Hc. unfold ask. apply terminates_loop.
  - intros u. apply reads_ask_turn. intros chk v E. now apply Hc.
  - intros u. unfold ask_turn. apply terminates_bind; [apply terminates_input|]. intros v.
    destruct check as [chk|]; [|apply terminates_ret].
    apply terminates_bind; [now apply Hc|]. intros r. repeat terminates_step.
Qed.

Lemma valid_unix_ok chk v :
  Some VALID_UNIX = Some chk -> keeps (chk v) /\ terminates (chk v).
Proof. intros E. inversion E; subst. split; [apply keeps_ret|apply terminates_ret]. Qed.

Lemma password_ok chk v :
  Some (fun x => ret (VBool (PyStr.truthy (PyStr.strip x)))) = Some chk ->
  keeps (chk v) /\ terminates (chk v).
Proof. intros E. inversion E; subst. split; [apply keeps_ret|apply terminates_ret]. Qed.

Lemma size_filter_ok chk v :
  Some size_filter = Some chk -> keeps (chk v) /\ terminates (chk v).
Proof.
  intros E. inversion E; subst. unfold size_filter. split.
  - repeat keeps_step.
  - repeat terminates_step.
Qed.

Lemma reads_ask_yn prompt : reads (ask_yn prompt).
Proof.
  unfold ask_yn. apply reads_bind_l; [apply reads_input|]. intros. apply keeps_ret.
Qed.

Lemma keeps_section text : keeps (section text).
Proof. unfold section, clear, print. repeat keeps_step. Qed.

Lemma terminates_section text : terminates (section text).
Proof. unfold section, clear, print. repeat terminates_step. Qed.

Lemma reads_collect_users_turn us : reads (collect_users_turn us).
Proof.
  unfold collect_users_turn, collect_user.
  apply reads_bind_l; [|intros ?; repeat keeps_step].
  apply reads_bind_l; [apply reads_ask; intros chk v E; now apply valid_unix_ok|].
  intros name. destruct (negb (py_truthy name)); [apply keeps_ret|].
  apply keeps_bind;
    [apply reads_keeps, reads_ask; intros chk v E; now apply password_ok|].
  intros pw. apply keeps_bind; [apply reads_keeps, reads_ask_yn|].
  intros sd. unfold print. repeat keeps_step.
Qed.

Lemma keeps_collect_users : keeps collect_users.
Proof.
  unfold collect_users. apply keeps_bind; [apply keeps_section|]. intros _.
  apply reads_keeps, loop_reads. apply reads_collect_users_turn.
Qed.

Lemma terminates_collect_users : terminates collect_users.
Proof.
  unfold collect_users. apply terminates_bind; [apply terminates_section|]. intros _.
  apply terminates_loop; [apply reads_collect_users_turn|].
  intros us. unfold collect_users_turn, collect_user.
  apply terminates_bind; [|intros ?; repeat terminates_step].
  apply terminates_bind; [apply terminates_ask; apply valid_unix_ok|].
  intros name. destruct (negb (py_truthy name)); [apply terminates_ret|].
  apply terminates_bind; [apply terminates_ask; apply password_ok|].
  intros pw. unfold ask_yn, print. repeat terminates_step.
Qed.

Lemma terminates_print_users l : terminates (print_users l).
Proof. induction l as [|u l IH]; simpl; repeat terminates_step. apply IH. Qed.

Lemma keeps_print_users l : keeps (print_users l).
Proof. induction l as [|u l IH]; simpl; unfold print; repeat keeps_step. apply IH. Qed.

Lemma keeps_review_general h tz us : keeps (review_general h tz us).
Proof.
  unfold review_general, print.
  apply keeps_bind; [apply keeps_section|]. intros _.
  apply keeps_bind; [apply keeps_emit|]. intros _.
  apply keeps_bind; [apply keeps_emit|]. intros _.
  apply keeps_bind; [apply keeps_print_users|]. intros _.
  apply keeps_bind; [apply reads_keeps, reads_ask_yn|]. intros ok. repeat keeps_step.
Qed.

Lemma reads_collect_general_turn env u : reads (collect_general_turn env u).
Proof.
  unfold collect_general_turn.
  apply reads_bind_r; [apply keeps_section|]. intros _.
  apply reads_bind_l; [apply reads_ask; intros chk v E; now apply valid_unix_ok|].
  intros host.
  apply keeps_bind; [apply keeps_section|]. intros _.
  apply keeps_bind; [apply reads_keeps, loop_reads, reads_choose_turn|]. intros tz.
  apply keeps_bind; [apply keeps_collect_users|]. intros us.
  apply keeps_bind; [apply keeps_review_general|]. intros r. repeat keeps_step.
Qed.

Lemma terminates_collect_general env : terminates (collect_general env).
Proof.
  unfold collect_general. apply terminates_loop; [apply reads_collect_general_turn|].
  intros u. unfold collect_general_turn.
  apply terminates_bind; [apply terminates_section|]. intros _.
  apply terminates_bind; [apply terminates_ask; apply valid_unix_ok|]. intros host.
  apply terminates_bind; [apply terminates_section|]. intros _.
  apply terminates_bind; [apply terminates_choose|]. intros tz.
  apply terminates_bind; [apply terminates_collect_users|]. intros us.
  apply terminates_bind; [|intros ?; repeat terminates_step].
  unfold review_general, print, ask_yn.
  apply terminates_bind; [apply terminates_section|]. intros _.
  apply terminates_bind; [apply terminates_emit|]. intros _.
  apply terminates_bind; [apply terminates_emit|]. intros _.
  apply terminates_bind; [apply terminates_print_users|]. intros _.
  repeat terminates_step.
Qed.

Lemma keeps_review_partitioning env dev root : keeps (review_partitioning env dev root).
Proof.
  unfold review_partitioning, Partitioning_init, get_disk_size, run_capture, print.
  apply keeps_bind; [apply keeps_section|]. intros _.
  apply keeps_bind; [repeat keeps_step|]. intros _.
  apply keeps_bind; [repeat keeps_step|]. intros _.
  apply keeps_bind; [apply reads_keeps, reads_ask_yn|]. intros ok. repeat keeps_step.
Qed.

Lemma terminates_review_partitioning env dev root :
  terminates (review_partitioning env dev root).
Proof.
  unfold review_partitioning, Partitioning_init, get_disk_size, run_capture, print, ask_yn.
  apply terminates_bind; [apply terminates_section|]. intros _.
  repeat terminates_step.
Qed.

Lemma reads_collect_partitioning_turn env u : reads (collect_partitioning_turn env u).
Proof.
  unfold collect_partitioning_turn, run_capture, print.
  apply reads_bind_r; [apply keeps_section|]. intros _.
  apply reads_bind_r; [apply keeps_emit|]. intros _.
  apply reads_bind_r; [repeat keeps_step|]. intros out.
  apply reads_bind_l; [apply loop_reads, reads_choose_turn|]. intros chosen.
  destruct (PyStr.split_ws chosen) as [|name toks]; [apply keeps_raise|].
  apply keeps_bind; [apply reads_keeps, reads_ask_yn|]. intros home.
  apply keeps_bind; [|intros ?; repeat keeps_step].
  destruct (negb home); [apply keeps_review_partitioning|].
  apply keeps_bind; [|intros ?; apply keeps_review_partitioning].
  apply reads_keeps, reads_ask. intros chk v E. now apply size_filter_ok.
Qed.

Lemma terminates_collect_partitioning env : terminates (collect_partitioning env).
Proof.
  unfold collect_partitioning.
  apply terminates_loop; [apply reads_collect_partitioning_turn|].
  intros u. unfold collect_partitioning_turn, run_capture, print.
  apply terminates_bind; [apply terminates_section|]. intros _.
  apply terminates_bind; [apply terminates_emit|]. intros _.
  apply terminates_bind; [repeat terminates_step|]. intros out.
  apply terminates_bind; [apply terminates_choose|]. intros chosen.
  destruct (PyStr.split_ws chosen) as [|name toks]; [apply terminates_raise|].
  apply terminates_bind; [unfold ask_yn; repeat terminates_step|]. intros home.
  apply terminates_bind; [|intros ?; repeat terminates_step].
  destruct (negb home); [apply terminates_review_partitioning|].
  apply terminates_bind; [|intros ?; apply terminates_review_partitioning].
  apply terminates_ask. apply size_filter_ok.
Qed.

Lemma terminates_add_each_user env l : terminates (add_each_user env l).
Proof.
  induction l as [|u l IH]; simpl; [apply terminates_ret|].
  unfold expect_str, run_checked. repeat terminates_step. apply IH.
Qed.

Lemma terminates_run_scripts env l : terminates (run_scripts env l).
Proof.
  induction l as [|x l IH]; simpl; [apply terminates_ret|].
  apply terminates_bind; [|intros _; apply IH].
  apply terminates_try; unfold run_checked, print; repeat terminates_step.
Qed.

Lemma terminates_install env i : terminates (install env i).
Proof.
  unfold install.
  apply terminates_bind; [apply terminates_emit|]. intros _.
  apply terminates_bind.
  { unfold apply, create_partitions, create_partition, format_partition, run_checked, print.
    repeat terminates_step. }
  intros _. apply terminates_bind.
  { unfold mount, run_checked, print. repeat terminates_step. }
  intros _. apply terminates_bind; [unfold pacstrap, run_checked, print; repeat terminates_step|].
  intros _. apply terminates_bind; [unfold genfstab, run_checked, print; repeat terminates_step|].
  intros _. apply terminates_bind;
    [unfold set_hostname, expect_str, print; repeat terminates_step|].
  intros _. apply terminates_bind.
  { unfold add_users, print. apply terminates_bind; [apply terminates_emit|].
    intros _. apply terminates_add_each_user. }
  intros _. apply terminates_bind; [unfold edit_sudoers, print; repeat terminates_step|].
  intros _. apply terminates_bind; [unfold lock_root, run_checked, print; repeat terminates_step|].
  intros _. apply terminates_bind; [unfold make_hosts, print; repeat terminates_step|].
  intros _. apply terminates_bind; [unfold setup_time, run_checked, print; repeat terminates_step|].
  intros _. apply terminates_bind; [unfold locale_gen, run_checked, print; repeat terminates_step|].
  intros _. apply terminates_bind.
  { unfold setup_bootloader, install_bootloader, make_loader_config, make_boot_entry,
      run_capture, run_checked, print.
    repeat terminates_step. }
  intros _. apply terminates_bind;
    [unfold setup_network, run_checked, print; repeat terminates_step|].
  intros _. apply terminates_bind; [|intros _; apply terminates_emit].
  unfold PostInstall_install, install_packages, download_and_run_scripts, print.
  apply terminates_bind; [apply terminates_emit|]. intros _.
  apply terminates_bind; [apply terminates_emit|]. intros _.
  apply terminates_bind; [|intros _; apply terminates_emit].
  apply terminates_bind; [apply terminates_emit|]. intros _. apply terminates_run_scripts.
Qed.

(** On any finite standard input the whole program comes to an end: it
    finishes the installation or stops on an exception ([EOFError] when
    the input runs out).  The fuel of the loops is never the limit. *)
Lemma run_terminates env : terminates (run env).
Proof.
  unfold run.
  apply terminates_bind; [apply terminates_collect_general|]. intros g.
  apply terminates_bind; [apply terminates_collect_partitioning|]. intros p.
  apply terminates_bind; [|intros i; apply terminates_install].
  unfold confirm_install, ask_yn.
  apply terminates_bind; [apply terminates_section|]. intros _.
  repeat terminates_step.
Qed.

(** ** Sanity checks on whole runs *)

(** Two searches in a row keep the items that contain both queries. *)
Lemma search_twice items q1 q2 x :
  In x (search (ItemList (search items q1)) q2) <->
  In x (item_seq items)
  /\ PyStr.contains (PyStr.lower x) q1 = true
  /\ PyStr.contains (PyStr.lower x) q2 = true.
Proof.
  unfold search. cbn [item_seq]. rewrite !filter_In. tauto.
Qed.

(** When both confirmations are given the run does reach the disk: the
    first command after the last question is the partition table. *)
Lemma accepted_run_mutates :
  let w := snd (run demo_env
                  (on_input ["host"; "/utc"; "1"; ""; "y"; "1"; "n"; "y"; "y"; ""])) in
  fst (run demo_env (on_input ["host"; "/utc"; "1"; ""; "y"; "1"; "n"; "y"; "y"; ""]))
  = Ok tt /\
  In (Run ["parted"; "/dev/sda"; "--script"; "mklabel"; "gpt"]) (events w) /\
  existsb mutating (events w) = true /\
  layout_of (events w)
  = [mkPart "fat32" 0 512; mkPart "linux-swap" 512 1536; mkPart "ext4" 1536 40960].
Proof.
  cbv zeta. split; [vm_compute; reflexivity|].
  split; [|split; vm_compute; reflexivity].
  vm_compute. tauto.
Qed.

(** * Further properties of the program *)

(** ** The menu: what [choose] can and cannot return *)

Lemma choose_turn_pool prompt pool w pool' w' :
  choose_turn prompt pool w = (Ok (inl pool'), w') ->
  incl (item_seq pool') (item_seq pool).
Proof.
  unfold choose_turn. intros H.
  apply bind_inv in H. destruct H as (_ & w1 & _ & H).
  apply bind_inv in H. destruct H as (choice & w2 & _ & H).
  destruct (PyStr.startswith choice "/").
  - destruct (search pool (PyStr.lower (drop_first choice))) as [|m ms] eqn:E.
    + apply bind_inv in H. destruct H as (_ & w3 & _ & H). inversion H; subst.
      apply incl_refl.
    + inversion H; subst. cbn [item_seq]. rewrite <- E. unfold search.
      apply incl_filter.
  - destruct (PyStr.int choice) as [n|].
    + destruct ((0 <=? n - 1) && (n - 1 <? len pool)).
      * apply bind_inv in H. destruct H as (x & w3 & _ & H). inversion H.
      * apply bind_inv in H. destruct H as (_ & w3 & _ & H). inversion H; subst.
        apply incl_refl.
    + apply bind_inv in H. destruct H as (_ & w3 & _ & H). inversion H; subst.
      apply incl_refl.
Qed.

Lemma subscript_member items i w x w' :
  subscript items i w = (Ok x, w') -> In x (item_seq items).
Proof.
  unfold subscript. destruct items as [l|l]; [discriminate|]. cbv zeta.
  destruct ((0 <=? _) && _); [|discriminate].
  destruct (nth_error l _) eqn:E; [|discriminate].
  intros H. inversion H; subst. cbn [item_seq]. eapply nth_error_In, E.
Qed.

Lemma choose_turn_item prompt pool w x w' :
  choose_turn prompt pool w = (Ok (inr x), w') -> In x (item_seq pool).
Proof.
  unfold choose_turn. intros H.
  apply bind_inv in H. destruct H as (_ & w1 & _ & H).
  apply bind_inv in H. destruct H as (choice & w2 & _ & H).
  destruct (PyStr.startswith choice "/").
  - destruct (search pool _).
    + apply bind_inv in H. destruct H as (_ & w3 & _ & H). inversion H.
    + inversion H.
  - destruct (PyStr.int choice) as [n|].
    + destruct ((0 <=? n - 1) && (n - 1 <? len pool)).
      * apply bind_inv in H. destruct H as (y & w3 & Hs & H). inversion H; subst.
        eapply subscript_member, Hs.
      * apply bind_inv in H. destruct H as (_ & w3 & _ & H). inversion H.
    + apply bind_inv in H. destruct H as (_ & w3 & _ & H). inversion H.
Qed.

(** X1: whatever is typed, searches included, an item [choose] returns is
    one of the items it was called with. *)
Theorem choose_returns_member prompt items w x w' :
  choose prompt items w = (Ok x, w') -> In x (item_seq items).
Proof.
  unfold choose, loop. intros H.
  refine (iter_invariant (choose_turn prompt)
            (fun pool => incl (item_seq pool) (item_seq items))
            (fun y => In y (item_seq items)) _ _ _ _ _ _ _ (incl_refl _) H).
  - intros s w0 s' w0' Hs E. eapply incl_tran; [|exact Hs].
    eapply choose_turn_pool, E.
  - intros s w0 a w0' Hs E. apply Hs. eapply choose_turn_item, E.
Qed.

Lemma choose_returns_member_witness :
  choose "Device" (ItemList ["sda 100G"; "sdb 50G"; "sdc 1T"])
    (on_input ["/sd"; "9"; "/G"; "x"; "2"])
  = (Ok "sdb 50G",
     snd (choose "Device" (ItemList ["sda 100G"; "sdb 50G"; "sdc 1T"])
            (on_input ["/sd"; "9"; "/G"; "x"; "2"]))) /\
  In "sdb 50G" (item_seq (ItemList ["sda 100G"; "sdb 50G"; "sdc 1T"])).
Proof.
  split; [vm_compute; reflexivity|].
  eapply (choose_returns_member "Device" (ItemList ["sda 100G"; "sdb 50G"; "sdc 1T"])
            (on_input ["/sd"; "9"; "/G"; "x"; "2"]) "sdb 50G").
  vm_compute. reflexivity.
Defined.

Lemma choose_turn_reject prompt items line rest evs :
  PyStr.startswith line "/" = false ->
  choose_turn prompt items (mkWorld (line :: rest) evs) =
  match PyStr.int line with
  | Some n =>
      if (0 <=? n - 1) && (n - 1 <? len items)
      then (x <- subscript items (n - 1) ;; ret (inr x))
             (mkWorld rest (evs ++ menu prompt items))
      else (Ok (inl items),
            mkWorld rest
              (evs ++ menu prompt items
               ++ [Print ("Please choose a number between 1 and " +++ PyStr.str_Z (len items))]))
  | None =>
      (Ok (inl items),
       mkWorld rest
         (evs ++ menu prompt items
          ++ [Print "Invalid input, please enter a number or a search query"]))
  end.
Proof.
  intros Hs. unfold choose_turn.
  erewrite bind_ok by apply print_items_ok. cbn [stdin events].
  erewrite bind_ok by apply input_line. rewrite Hs. unfold menu.
  destruct (PyStr.int line) as [n|].
  - destruct ((0 <=? n - 1) && (n - 1 <? len items)).
    + now rewrite <- !app_assoc.
    + unfold print. erewrite bind_ok by apply emit_ok. cbn [stdin events].
      unfold ret. now rewrite <- !app_assoc.
  - unfold print. erewrite bind_ok by apply emit_ok. cbn [stdin events].
    unfold ret. now rewrite <- !app_assoc.
Qed.



(** X3: on an empty pool no line can select anything: every answer is
    rejected or finds no match, and [choose] ends with [EOFError] when the
    input runs out.  So a machine on which [lsblk] lists no drive cannot
    get past the device menu. *)
Theorem choose_empty_never_returns prompt lines evs :
  fst (choose prompt (ItemList []) (mkWorld lines evs)) = Raise EOFError.
Proof.
  revert evs. induction lines as [|line rest IH]; intros evs.
  - rewrite choose_unfold. reflexivity.
  - rewrite choose_unfold.
    destruct (PyStr.startswith line "/") eqn:Hs.
    + destruct line as [|c q]; [vm_compute in Hs; discriminate Hs|].
      assert (c = "/"%char) as ->.
      { unfold PyStr.startswith in Hs. cbn [String.prefix] in Hs.
        destruct (ascii_dec "/"%char c); [congruence|discriminate Hs]. }
      rewrite choose_turn_search. cbn [search item_seq filter]. apply IH.
    + rewrite (choose_turn_reject _ _ _ _ _ Hs).
      destruct (PyStr.int line) as [n|]; [|apply IH].
      replace ((0 <=? n - 1) && (n - 1 <? len (ItemList []))) with false; [apply IH|].
      symmetry. apply andb_false_iff. unfold len. cbn [item_seq List.length Z.of_nat].
      destruct (Z.leb_spec 0 (n - 1)); [right; apply Z.ltb_ge; lia|now left].
Qed.

(** ** [ask_int]: a prompt that does ask again *)





(** X5: a value [ask_int] returns is never outside the bounds it was
    given, whatever was typed before it. *)
Theorem ask_int_within_bounds prompt min max w n w' :
  ask_int prompt min max w = (Ok n, w') ->
  (forall lo, min = Some lo -> lo <= n) /\ (forall hi, max = Some hi -> n <= hi).
Proof.
  unfold ask_int, loop. intros H.
  assert (Hin : within min max n = true).
  { refine (iter_invariant (ask_int_turn prompt min max) (fun _ => True)
              (fun v => within min max v = true) _ _ _ _ _ _ _ I H); [auto|].
    intros s w0 a w0' _ E. unfold ask_int_turn in E.
    apply bind_inv in E. destruct E as (line & w1 & _ & E).
    destruct (PyStr.int line) as [v|].
    - destruct (within min max v) eqn:Hv.
      + inversion E; subst. exact Hv.
      + apply bind_inv in E. destruct E as (_ & w2 & _ & E). inversion E.
    - apply bind_inv in E. destruct E as (_ & w2 & _ & E). inversion E. }
  unfold within in Hin. apply andb_true_iff in Hin. destruct Hin as [H1 H2].
  split.
  - intros lo ->. now apply Z.leb_le.
  - intros hi ->. now apply Z.leb_le.
Qed.

Lemma ask_int_within_bounds_witness :
  ask_int "Count" (Some 1) (Some 9) (on_input ["42"; "-3"; "5"; "6"])
  = (Ok 5, snd (ask_int "Count" (Some 1) (Some 9) (on_input ["42"; "-3"; "5"; "6"]))) /\
  (forall lo, Some 1 = Some lo -> lo <= 5) /\ (forall hi, Some 9 = Some hi -> 5 <= hi).
Proof.
  split; [vm_compute; reflexivity|].
  eapply (ask_int_within_bounds "Count" (Some 1) (Some 9)
            (on_input ["42"; "-3"; "5"; "6"]) 5).
  vm_compute. reflexivity.
Defined.

(** ** Post-install scripts *)

Lemma run_scripts_always_ok env l : forall w,
  exists evs,
    run_scripts env l w = (Ok tt, mkWorld (stdin w) (events w ++ evs)) /\
    filter is_curl evs = List.map curl_of l.
Proof.
  induction l as [|script l IH]; intros w.
  - exists []. cbn [run_scripts List.map filter]. unfold ret.
    rewrite app_nil_r. now destruct w.
  - cbn [run_scripts].
    set (name := List.last (PyStr.split_on "/" script) EmptyString).
    set (c1 := Run ["curl"; "-o"; "/mnt/tmp/" +++ name; script]).
    set (c2 := Run ["chmod"; "+x"; "/mnt/tmp/" +++ name]).
    set (c3 := Run ["arch-chroot"; "/mnt"; "/tmp/" +++ name]).
    set (err := Print ("Error downloading/running script " +++ script)).
    assert (T : exists evs1,
               try_except
                 (run_checked env c1 ;; run_checked env c2 ;; run_checked env c3)
                 (print ("Error downloading/running script " +++ script)) w
               = (Ok tt, mkWorld (stdin w) (events w ++ c1 :: evs1))
               /\ filter is_curl evs1 = []).
    { unfold try_except, run_checked, print, bind, emit, raise, ret. cbn [stdin events].
      destruct (tool_ok env c1); [destruct (tool_ok env c2); [destruct (tool_ok env c3)|]|];
        cbn [stdin events]; rewrite <- ?app_assoc; cbn [app].
      - exists [c2; c3]. split; reflexivity.
      - exists [c2; c3; err]. split; reflexivity.
      - exists [c2; err]. split; reflexivity.
      - exists [err]. split; reflexivity. }
    destruct T as (evs1 & T & F1).
    erewrite bind_ok by exact T.
    destruct (IH (mkWorld (stdin w) (events w ++ c1 :: evs1))) as (evs2 & E & F2).
    rewrite E. cbn [stdin events].
    exists ((c1 :: evs1) ++ evs2). split; [now rewrite <- app_assoc|].
    rewrite filter_app. cbn [filter is_curl c1 String.eqb]. simpl filter.
    rewrite F1, F2. reflexivity.
Qed.

Lemma post_install_always_ok env self w :
  exists evs,
    PostInstall_install env self w = (Ok tt, mkWorld (stdin w) (events w ++ evs)) /\
    filter is_curl evs = List.map curl_of (scripts self).
Proof.
  unfold PostInstall_install, install_packages, download_and_run_scripts, print.
  erewrite bind_ok by apply emit_ok.
  erewrite bind_ok by apply emit_ok. cbn [stdin events].
  destruct (run_scripts_always_ok env (scripts self)
              (mkWorld (stdin w)
                 (((events w ++ [Print "Post installation started"])
                   ++ [Run (["arch-chroot"; "/mnt"; "pacman"; "-S"; "--noconfirm"]
                            ++ packages self)])
                  ++ [Makedirs "/mnt/tmp"])))
    as (evs & E & F).
  erewrite bind_ok.
  2: { erewrite bind_ok by apply emit_ok. exact E. }
  rewrite emit_ok. cbn [stdin events].
  eexists. split.
  - rewrite <- !app_assoc. reflexivity.
  - cbn [app filter is_curl String.eqb]. simpl filter at 1.
    rewrite filter_app, F. cbn [filter is_curl]. now rewrite app_nil_r.
Qed.


Lemma split_on_cons sep s : exists h t, PyStr.split_on sep s = h :: t.
Proof.
  induction s as [|c s (h & t & IH)]; cbn [PyStr.split_on]; [now eexists; eexists|].
  destruct (Ascii.eqb c sep); [now eexists; eexists|].
  rewrite IH. now eexists; eexists.
Qed.

Lemma split_on_pieces sep s :
  Forall (fun piece => has_char sep piece = false) (PyStr.split_on sep s).
Proof.
  induction s as [|c s IH]; cbn [PyStr.split_on]; [repeat constructor|].
  destruct (Ascii.eqb c sep) eqn:Ec; [constructor; [reflexivity|exact IH]|].
  destruct (split_on_cons sep s) as (h & t & E). rewrite E in *.
  inversion IH; subst. constructor; [|assumption]. cbn. now rewrite Ec.
Qed.

(** [sep.join(s.split(sep)) == s] *)
Lemma join_split_on sep s : join sep (PyStr.split_on sep s) = s.
Proof.
  induction s as [|c s IH]; [reflexivity|].
  cbn [PyStr.split_on]. destruct (split_on_cons sep s) as (h & t & E).
  rewrite E in *. destruct (Ascii.eqb_spec c sep) as [->|_].
  - change (join sep (EmptyString :: h :: t)) with (String sep (join sep (h :: t))).
    now rewrite IH.
  - destruct t as [|h' t].
    + change (String c h = String c s). f_equal. exact IH.
    + change (String c (h +++ String sep (join sep (h' :: t))) = String c s).
      f_equal. exact IH.
Qed.

Lemma last_is_append f a b :
  b <> EmptyString -> last_is f (a +++ b) = last_is f b.
Proof.
  intros Hb. induction a as [|x a IH]; [reflexivity|].
  cbn [String.append last_is]. destruct (a +++ b) eqn:E; [|exact IH].
  destruct a; cbn in E; [congruence|discriminate].
Qed.

Lemma join_last sep t : forall h,
  exists dir,
    join sep (h :: t) = dir +++ List.last (h :: t) EmptyString /\
    (dir = EmptyString \/ last_is (fun c => Ascii.eqb c sep) dir = true).
Proof.
  induction t as [|h' t IH]; intros h.
  - exists EmptyString. auto.
  - destruct (IH h') as (dir & E & Hd).
    exists (h +++ String sep dir). split.
    + change (List.last (h :: h' :: t) EmptyString) with (List.last (h' :: t) EmptyString).
      change (join sep (h :: h' :: t)) with (h +++ String sep (join sep (h' :: t))).
      rewrite E. rewrite SizeReFacts.append_assoc. reflexivity.
    + right. rewrite last_is_append by discriminate.
      destruct Hd as [->|Hd]; [apply Ascii.eqb_refl|].
      destruct dir; [discriminate Hd|exact Hd].
Qed.

(** X7: the file name a script is saved under, the part of its URL after
    the last slash, never contains a slash, so the download lands directly
    in [/mnt/tmp]; the URL is that name preceded by nothing or by a prefix
    ending in a slash (a URL ending in a slash gives the empty name). *)
Theorem script_name_no_slash script :
  has_char "/" (script_name script) = false /\
  exists dir,
    script = dir +++ script_name script /\
    (dir = EmptyString \/ last_is (fun c => Ascii.eqb c "/") dir = true).
Proof.
  unfold script_name.
  pose proof (split_on_pieces "/" script) as Hp.
  pose proof (join_split_on "/" script) as Hj.
  destruct (split_on_cons "/" script) as (h & t & E). rewrite E in *.
  split.
  - assert (Hin : In (List.last (h :: t) EmptyString) (h :: t)).
    { clear. revert h. induction t as [|x t IH]; intros h; [now left|].
      right. apply IH. }
    rewrite Forall_forall in Hp. now apply Hp.
  - destruct (join_last "/" t h) as (dir & Ed & Hd).
    exists dir. split; [|exact Hd]. now rewrite <- Ed.
Qed.

(** ** The installation sequence *)

(** X8: an installer whose root request fails the sizing check stops
    right after announcing itself: [install] raises the [ValueError] of
    [apply] and no command has been run and no file touched. *)
Theorem install_sizing_error_touches_nothing env i w :
  root_partition_size (partitioning i) <> 0 ->
  remaining_size (partitioning i) <= root_partition_size (partitioning i) ->
  install env i w
  = (Raise too_large, mkWorld (stdin w) (events w ++ [Print "Installation started"])).
Proof.
  intros H1 H2. unfold install, print.
  erewrite bind_ok by apply emit_ok.
  erewrite bind_raise by (apply apply_rejected; assumption). reflexivity.
Qed.

Lemma install_sizing_error_touches_nothing_witness :
  root_partition_size (Partitioning_fields "/dev/sda" 15000 20480) <> 0 /\
  install demo_env
    (mkInstaller (mkGeneral "UTC" (VStr "host") [])
       (Partitioning_fields "/dev/sda" 15000 20480) (mkPostInstall [] []))
    (on_input [])
  = (Raise too_large, mkWorld [] ([] ++ [Print "Installation started"])).
Proof.
  split; [discriminate|].
  apply (install_sizing_error_touches_nothing demo_env
           (mkInstaller (mkGeneral "UTC" (VStr "host") [])
              (Partitioning_fields "/dev/sda" 15000 20480) (mkPostInstall [] []))
           (on_input [])).
  - discriminate.
  - vm_compute. discriminate.
Defined.

Section FailFast.

Variable env : Env.

Lemma ff_ret {A} (a : A) : fails_fast env (ret a).
Proof.
  intros w r w' E. inversion E; subst. exists []. rewrite app_nil_r.
  split; [reflexivity|discriminate].
Qed.

Lemma ff_raise {A} e : e <> CalledProcessError -> fails_fast env (@raise A e).
Proof.
  intros He w r w' E. inversion E; subst. exists []. rewrite app_nil_r.
  split; [reflexivity|]. intros H. inversion H. congruence.
Qed.

Lemma ff_emit ev : fails_fast env (emit ev).
Proof.
  intros w r w' E. inversion E; subst. exists [ev]. split; [reflexivity|discriminate].
Qed.

Lemma ff_run_checked ev :
  match ev with
  | Run _ | RunInput _ _ | RunAppend _ _ | Mkpart _ _ _ _ => True
  | _ => False
  end ->
  fails_fast env (run_checked env ev).
Proof.
  intros Hc w r w' E. unfold run_checked, bind, emit in E.
  destruct (tool_ok env ev) eqn:T; inversion E; subst; exists [ev];
    (split; [reflexivity|]); [discriminate|].
  intros _. exists [], ev. split; [reflexivity|].
  destruct ev; try contradiction; cbn [failed]; now rewrite T.
Qed.

Lemma ff_run_capture argv : fails_fast env (run_capture env argv).
Proof.
  intros w r w' E. unfold run_capture, bind, emit in E.
  destruct (capture_stdout env argv) eqn:T; inversion E; subst; exists [Capture argv];
    (split; [reflexivity|]); [discriminate|].
  intros _. exists [], (Capture argv). split; [reflexivity|]. cbn [failed]. now rewrite T.
Qed.

Lemma ff_bind {A B} (m : M A) (k : A -> M B) :
  fails_fast env m -> (forall a, fails_fast env (k a)) -> fails_fast env (bind m k).
Proof.
  intros Hm Hk w r w' E. unfold bind in E.
  destruct (m w) as [[a|e|] w1] eqn:E1.
  - destruct (Hm _ _ _ E1) as (l1 & H1 & _).
    destruct (Hk a _ _ _ E) as (l2 & H2 & F2).
    exists (l1 ++ l2). rewrite H2, H1, app_assoc. split; [reflexivity|].
    intros Hr. destruct (F2 Hr) as (before & ev & -> & Hf).
    exists (l1 ++ before), ev. now rewrite app_assoc.
  - inversion E; subst. destruct (Hm _ _ _ E1) as (l1 & H1 & F1).
    exists l1. split; [exact H1|]. intros Hr. inversion Hr; subst. now apply F1.
  - inversion E; subst. destruct (Hm _ _ _ E1) as (l1 & H1 & _).
    exists l1. split; [exact H1|discriminate].
Qed.

Ltac ff_step :=
  first
    [ apply ff_ret
    | apply ff_raise; discriminate
    | apply ff_run_checked; exact I
    | apply ff_run_capture
    | apply ff_emit
    | apply ff_bind; [|intros ?]
    | match goal with
      | |- fails_fast _ (match ?x with _ => _ end) => destruct x
      end ].

Lemma ff_add_each_user l : fails_fast env (add_each_user env l).
Proof.
  induction l as [|u l IH]; cbn [add_each_user]; [apply ff_ret|].
  unfold expect_str.
  apply ff_bind; [repeat ff_step|]. intros name.
  apply ff_bind; [repeat ff_step|]. intros _.
  apply ff_bind; [repeat ff_step|]. intros _. exact IH.
Qed.

Lemma ff_post_install self : fails_fast env (PostInstall_install env self).
Proof.
  intros w r w' E. destruct (post_install_always_ok env self w) as (evs & E' & _).
  rewrite E' in E. inversion E; subst. exists evs. split; [reflexivity|discriminate].
Qed.

Lemma ff_apply self : fails_fast env (apply env self).
Proof.
  unfold apply, create_partitions, create_partition, format_partition, too_large, print.
  repeat ff_step.
Qed.

Lemma ff_mount self : fails_fast env (mount env self).
Proof. unfold mount, print. repeat ff_step. Qed.

Lemma ff_install i : fails_fast env (install env i).
Proof.
  unfold install, print.
  apply ff_bind; [apply ff_emit|]. intros _.
  apply ff_bind; [apply ff_apply|]. intros _.
  apply ff_bind; [apply ff_mount|]. intros _.
  apply ff_bind; [unfold pacstrap, print; repeat ff_step|]. intros _.
  apply ff_bind; [unfold genfstab, print; repeat ff_step|]. intros _.
  apply ff_bind; [unfold set_hostname, expect_str, print; repeat ff_step|]. intros _.
  apply ff_bind.
  { unfold add_users, print. apply ff_bind; [apply ff_emit|]. intros _.
    apply ff_add_each_user. }
  intros _.
  apply ff_bind; [unfold edit_sudoers, print; repeat ff_step|]. intros _.
  apply ff_bind; [unfold lock_root, print; repeat ff_step|]. intros _.
  apply ff_bind; [unfold make_hosts, print; repeat ff_step|]. intros _.
  apply ff_bind; [unfold setup_time, print; repeat ff_step|]. intros _.
  apply ff_bind; [unfold locale_gen, print; repeat ff_step|]. intros _.
  apply ff_bind.
  { unfold setup_bootloader, install_bootloader, make_loader_config, make_boot_entry, print.
    repeat ff_step. }
  intros _.
  apply ff_bind; [unfold setup_network, print; repeat ff_step|]. intros _.
  apply ff_bind; [apply ff_post_install|]. intros _. apply ff_emit.
Qed.

End FailFast.

(** X9: [install] stops at the first external command that fails: when
    it ends with [CalledProcessError], the last thing it did is the
    command that failed (a checked tool, or the [blkid] query), and no
    later step has been started. *)
Theorem install_stops_at_failed_command env i w w' :
  install env i w = (Raise CalledProcessError, w') ->
  exists before ev,
    events w' = events w ++ before ++ [ev] /\ failed env ev = true.
Proof.
  intros E. destruct (ff_install env i _ _ _ E) as (evs & H & F).
  destruct (F eq_refl) as (before & ev & -> & Hf). now exists before, ev.
Qed.

Lemma install_stops_at_failed_command_witness :
  exists before ev,
    events (snd (install broken_mkfs_env
                   (mkInstaller (mkGeneral "UTC" (VStr "host") [])
                      (Partitioning_fields "/dev/sda" 0 40960) (mkPostInstall [] []))
                   (on_input [])))
    = events (on_input []) ++ before ++ [ev] /\
    failed broken_mkfs_env ev = true.
Proof.
  eapply (install_stops_at_failed_command broken_mkfs_env
            (mkInstaller (mkGeneral "UTC" (VStr "host") [])
               (Partitioning_fields "/dev/sda" 0 40960) (mkPostInstall [] []))
            (on_input [])).
  vm_compute. reflexivity.
Defined.

Lemma replace_char_gone a b s :
  a <> b -> has_char a (PyStr.replace_char a b s) = false.
Proof.
  intros Hab. induction s as [|c s IH]; [reflexivity|].
  unfold PyStr.replace_char in *. cbn [PyStr.map has_char]. rewrite IH, orb_false_r.
  destruct (Ascii.eqb_spec c a) as [->|Hc].
  - apply Ascii.eqb_neq. congruence.
  - now apply Ascii.eqb_neq.
Qed.

Lemma replace_char_same a b s :
  PyStr.replace_char a b s = s <-> has_char a s = false \/ a = b.
Proof.
  destruct (ascii_dec a b) as [->|Hab].
  - split; [auto|intros _]. induction s as [|c s IH]; [reflexivity|].
    unfold PyStr.replace_char in *. cbn [PyStr.map]. rewrite IH.
    destruct (Ascii.eqb_spec c b); congruence.
  - split.
    + intros H. left. rewrite <- H. now apply replace_char_gone.
    + intros [H|H]; [|contradiction]. induction s as [|c s IH]; [reflexivity|].
      cbn [has_char] in H. apply orb_false_iff in H. destruct H as [Hc Hs].
      unfold PyStr.replace_char in *. cbn [PyStr.map]. rewrite Hc, IH by exact Hs.
      reflexivity.
Qed.

(** X10: [setup_time] links [/etc/localtime] to the zone name with every
    underscore turned into a slash: the path it hands to [ln] never
    contains an underscore, and it is the zone's own file exactly when the
    zone name has none (so a zone such as [America/New_York] is linked to
    [.../America/New/York]). *)
Theorem setup_time_link_target env i w :
  exists path rest,
    events (snd (setup_time env i w))
    = events w ++ Print "Setting up time"
        :: Run ["ln"; "-sf"; "/usr/share/zoneinfo/" +++ path; "/mnt/etc/localtime"] :: rest /\
    has_char "_" path = false /\
    (path = timezone (general i) <-> has_char "_" (timezone (general i)) = false).
Proof.
  exists (PyStr.replace_char "_" "/" (timezone (general i))).
  unfold setup_time, run_checked, print, bind, emit, raise, ret. cbn [stdin events].
  set (p := PyStr.replace_char "_" "/" (timezone (general i))).
  assert (Hp : has_char "_" p = false /\
               (p = timezone (general i) <-> has_char "_" (timezone (general i)) = false)).
  { split; [apply replace_char_gone; discriminate|].
    unfold p. rewrite replace_char_same. split; [|auto].
    intros [H|H]; [exact H|discriminate H]. }
  destruct (tool_ok env (Run ["ln"; "-sf"; "/usr/share/zoneinfo/" +++ p; "/mnt/etc/localtime"])).
  - destruct (tool_ok env (Run ["arch-chroot"; "/mnt"; "hwclock"; "--systohc"]));
      cbn [snd events]; rewrite <- !app_assoc; cbn [app]; eexists; (split; [reflexivity|exact Hp]).
  - cbn [snd events]. rewrite <- !app_assoc. cbn [app]. eexists. split; [reflexivity|exact Hp].
Qed.

(** ** The planner at the edges *)

(** X11: [apply] never checks that the disk holds boot and swap.  On a
    disk of at most 1536 MB every separate-home request is refused, but
    the single-root layout goes through: [parted] is asked for a root
    partition from 1536 MB to the end of the disk, an empty or backward
    range. *)
Theorem apply_on_small_disk env dev total root w :
  (forall ev, tool_ok env ev = true) ->
  total <= 1536 ->
  (0 < root ->
   apply env (Partitioning_fields dev root total) w = (Raise too_large, w)) /\
  (root = 0 ->
   exists evs,
     apply env (Partitioning_fields dev root total) w
     = (Ok tt, mkWorld (stdin w) (events w ++ evs)) /\
     layout_of evs
     = [mkPart "fat32" 0 512; mkPart "linux-swap" 512 1536; mkPart "ext4" 1536 total]).
Proof.
  intros Hok Ht. split.
  - intros Hr. apply apply_rejected; rewrite root_size_fields, ?remaining_size_fields.
    + lia.
    + apply Z.ltb_lt in Hr. rewrite Hr. lia.
  - intros ->.
    destruct (apply_accepted env Hok (Partitioning_fields dev 0 total) w) as (evs & E & L).
    { left. apply root_size_fields. }
    exists evs. split; [exact E|]. rewrite L, root_size_fields, remaining_size_fields.
    change (0 <? 0) with false. cbv iota. cbn [app]. repeat f_equal. lia.
Qed.

Lemma apply_on_small_disk_witness :
  (forall ev, tool_ok demo_env ev = true) /\ 1000 <= 1536 /\
  (0 < 100 ->
   apply demo_env (Partitioning_fields "/dev/sda" 100 1000) (on_input [])
   = (Raise too_large, on_input [])) /\
  (0 = 0 ->
   exists evs,
     apply demo_env (Partitioning_fields "/dev/sda" 0 1000) (on_input [])
     = (Ok tt, mkWorld [] ([] ++ evs)) /\
     layout_of evs
     = [mkPart "fat32" 0 512; mkPart "linux-swap" 512 1536; mkPart "ext4" 1536 1000]).
Proof.
  split; [reflexivity|]. split; [lia|]. split.
  - apply (apply_on_small_disk demo_env "/dev/sda" 1000 100 (on_input [])); [reflexivity|lia].
  - apply (apply_on_small_disk demo_env "/dev/sda" 1000 0 (on_input [])); [reflexivity|lia].
Defined.

(** X12: a negative root size, which only a loaded configuration can
    carry, is treated as no separate home on any disk larger than boot
    plus swap: nothing is refused and the layout is the single-root one,
    the root partition running to the end of the disk. *)
Theorem apply_negative_root env dev total root w :
  (forall ev, tool_ok env ev = true) ->
  root < 0 -> 1536 < total ->
  exists evs,
    apply env (Partitioning_fields dev root total) w
    = (Ok tt, mkWorld (stdin w) (events w ++ evs)) /\
    layout_of evs
    = [mkPart "fat32" 0 512; mkPart "linux-swap" 512 1536; mkPart "ext4" 1536 total] /\
    has_separate_home_partition (Partitioning_fields dev root total) = false.
Proof.
  intros Hok Hr Ht.
  assert (Hn : (0 <? root) = false) by (apply Z.ltb_ge; lia).
  destruct (apply_accepted env Hok (Partitioning_fields dev root total) w) as (evs & E & L).
  { right. rewrite root_size_fields, remaining_size_fields, Hn. lia. }
  exists evs. split; [exact E|].
  rewrite L, root_size_fields, remaining_size_fields, Hn. split.
  - cbn [app]. repeat f_equal. lia.
  - unfold has_separate_home_partition. now rewrite root_size_fields.
Qed.

Lemma apply_negative_root_witness :
  (forall ev, tool_ok demo_env ev = true) /\ -5 < 0 /\ 1536 < 40960 /\
  exists evs,
    apply demo_env (Partitioning_fields "/dev/sda" (-5) 40960) (on_input [])
    = (Ok tt, mkWorld [] ([] ++ evs)) /\
    layout_of evs
    = [mkPart "fat32" 0 512; mkPart "linux-swap" 512 1536; mkPart "ext4" 1536 40960] /\
    has_separate_home_partition (Partitioning_fields "/dev/sda" (-5) 40960) = false.
Proof.
  split; [reflexivity|]. split; [lia|]. split; [lia|].
  apply (apply_negative_root demo_env "/dev/sda" 40960 (-5) (on_input []));
    [reflexivity|lia|lia].
Defined.

Lemma mount_ok env self w :
  (forall ev, tool_ok env ev = true) ->
  exists evs,
    mount env self w = (Ok tt, mkWorld (stdin w) (events w ++ evs)) /\
    mounts_of evs =
    (device self +++ "p3", "/mnt")
    :: (if has_separate_home_partition self then [(device self +++ "p4", "/mnt/home")] else [])
    ++ [(device self +++ "p1", "/mnt/boot")].
Proof.
  intros Hok. unfold mount, print.
  destruct (has_separate_home_partition self).
  - eexists. split.
    + repeat (first [ erewrite bind_ok by apply emit_ok
                    | erewrite bind_ok by (apply run_checked_ok; exact Hok)
                    | erewrite bind_ok by
                        (erewrite bind_ok by (apply run_checked_ok; exact Hok);
                         apply run_checked_ok; exact Hok) ]).
      rewrite run_checked_ok by exact Hok. cbn [stdin events].
      rewrite <- !app_assoc. reflexivity.
    + reflexivity.
  - eexists. split.
    + repeat (first [ erewrite bind_ok by apply emit_ok
                    | erewrite bind_ok by (apply run_checked_ok; exact Hok)
                    | erewrite bind_ok by reflexivity ]).
      rewrite run_checked_ok by exact Hok. cbn [stdin events].
      rewrite <- !app_assoc. reflexivity.
    + reflexivity.
Qed.

(** X13: [mount] agrees with what [apply] created.  After an accepted
    [apply], the root partition [p3] is mounted first at [/mnt], then the
    home partition [p4] at [/mnt/home] exactly when [apply] created a
    fourth partition, then boot [p1] at [/mnt/boot]; nothing else is
    mounted. *)
Theorem mount_matches_layout env self w :
  (forall ev, tool_ok env ev = true) ->
  root_partition_size self = 0 \/ root_partition_size self < remaining_size self ->
  exists created mounted,
    (apply env self ;; mount env self) w
    = (Ok tt, mkWorld (stdin w) (events w ++ created ++ mounted)) /\
    List.length (layout_of created) = (if 0 <? root_partition_size self then 4%nat else 3%nat) /\
    mounts_of mounted =
    (device self +++ "p3", "/mnt")
    :: (if 0 <? root_partition_size self then [(device self +++ "p4", "/mnt/home")] else [])
    ++ [(device self +++ "p1", "/mnt/boot")].
Proof.
  intros Hok Hacc.
  destruct (apply_accepted env Hok self w Hacc) as (created & Ea & La).
  destruct (mount_ok env self (mkWorld (stdin w) (events w ++ created)) Hok)
    as (mounted & Em & Lm).
  exists created, mounted. split; [|split].
  - erewrite bind_ok by exact Ea. rewrite Em. cbn [stdin events].
    now rewrite <- app_assoc.
  - rewrite La. now destruct (0 <? root_partition_size self).
  - exact Lm.
Qed.

Lemma mount_matches_layout_witness :
  exists created mounted,
    (apply demo_env (Partitioning_fields "/dev/sda" 10240 40960) ;;
     mount demo_env (Partitioning_fields "/dev/sda" 10240 40960)) (on_input [])
    = (Ok tt, mkWorld (stdin (on_input [])) (events (on_input []) ++ created ++ mounted)) /\
    List.length (layout_of created)
    = (if 0 <? root_partition_size (Partitioning_fields "/dev/sda" 10240 40960)
       then 4%nat else 3%nat) /\
    mounts_of mounted =
    (device (Partitioning_fields "/dev/sda" 10240 40960) +++ "p3", "/mnt")
    :: (if 0 <? root_partition_size (Partitioning_fields "/dev/sda" 10240 40960)
        then [(device (Partitioning_fields "/dev/sda" 10240 40960) +++ "p4", "/mnt/home")]
        else [])
    ++ [(device (Partitioning_fields "/dev/sda" 10240 40960) +++ "p1", "/mnt/boot")].
Proof.
  apply (mount_matches_layout demo_env (Partitioning_fields "/dev/sda" 10240 40960)
           (on_input [])).
  - reflexivity.
  - right. vm_compute. reflexivity.
Defined.

(** ** What the wizard hands to the installer *)













(** ** Saving and loading *)

Lemma user_round_trip u : User_deserialize (User_serialize u) = Loaded (User_loaded u).
Proof. reflexivity. Qed.

Lemma users_round_trip us :
  load_each User_deserialize (map User_serialize us) = Loaded (map User_loaded us).
Proof.
  induction us as [|u us IH]; [reflexivity|].
  cbn [map load_each]. rewrite user_round_trip, IH. reflexivity.
Qed.

Lemma User_loaded_inj u u' : User_loaded u = User_loaded u' -> u = u'.
Proof. destruct u, u'. unfold User_loaded. cbn. intros H. inversion H. reflexivity. Qed.

Lemma map_User_loaded_inj us us' : map User_loaded us = map User_loaded us' -> us = us'.
Proof.
  revert us'. induction us as [|u us IH]; intros [|u' us'] H; try discriminate; [reflexivity|].
  cbn [map] in H.
  pose proof (f_equal (hd (User_loaded u)) H) as Hu.
  pose proof (f_equal (@tl _) H) as Hus. cbn [hd tl] in Hu, Hus.
  apply User_loaded_inj in Hu. apply IH in Hus. now subst.
Qed.

(** X16: loading what [General.serialize] wrote gives back the
    configuration: the loaded object carries the time zone, the host
    name and, user by user and in order, the name, password and sudo flag
    of the one that was saved, and no other configuration saves to the
    same attributes. *)
Theorem general_round_trip g :
  General_deserialize (General_serialize g) = Loaded (General_loaded g) /\
  forall g', General_deserialize (General_serialize g') = Loaded (General_loaded g) -> g' = g.
Proof.
  assert (R : forall g0, General_deserialize (General_serialize g0) = Loaded (General_loaded g0)).
  { intros g0. unfold General_deserialize, General_serialize.
    cbn [getitem dict_get String.eqb Ascii.eqb Bool.eqb load_bind py_iter].
    rewrite users_round_trip. reflexivity. }
  split; [apply R|].
  intros g' H. rewrite R in H. inversion H as [[Ht Hh Hu]].
  apply map_User_loaded_inj in Hu. destruct g, g'. cbn in *. now subst.
Qed.

Lemma get_disk_size_world env dev w r w' :
  get_disk_size env dev w = (r, w') ->
  w' = mkWorld (stdin w) (events w ++ [Capture (lsblk_size dev)]).
Proof.
  unfold get_disk_size, run_capture, bind, emit, lsblk_size.
  destruct (capture_stdout env _) as [out|]; cbn.
  - destruct (PyStr.int (PyStr.strip out)); cbn; intros H; now inversion H.
  - intros H; now inversion H.
Qed.

Lemma get_disk_size_ok env dev out n w :
  capture_stdout env (lsblk_size dev) = Some out ->
  PyStr.int (PyStr.strip out) = Some n ->
  get_disk_size env dev w
  = (Ok (n / 1024 ^ 2), mkWorld (stdin w) (events w ++ [Capture (lsblk_size dev)])).
Proof.
  intros Hc Hn. unfold get_disk_size, run_capture, bind, emit. unfold lsblk_size in Hc.
  rewrite Hc. cbn. rewrite Hn. reflexivity.
Qed.

Lemma Partitioning_new_world env dev root w r w' :
  Partitioning_new env dev root w = (r, w') ->
  w' = w \/ exists s, w' = mkWorld (stdin w) (events w ++ [Capture (lsblk_size s)]).
Proof.
  unfold Partitioning_new.
  destruct dev as [[| | |s]| |]; try (intros H; inversion H; now left).
  intros H. right. exists s.
  assert (G : exists r0, get_disk_size env s w = (r0, w') ).
  { destruct root as [v| |].
    - unfold Partitioning_init, bind in H.
      destruct (get_disk_size env s w) as [[t|e|] w1] eqn:E.
      + destruct (py_as_int v); inversion H; subst; eauto.
      + inversion H; subst; eauto.
      + inversion H; subst; eauto.
    - unfold bind in H.
      destruct (get_disk_size env s w) as [[t|e|] w1] eqn:E; inversion H; subst; eauto.
    - unfold bind in H.
      destruct (get_disk_size env s w) as [[t|e|] w1] eqn:E; inversion H; subst; eauto. }
  destruct G as (r0 & G). now apply get_disk_size_world in G.
Qed.

(** X17: when [lsblk] answers the query for the saved device with a
    number of bytes, loading what [Installer.serialize] wrote runs that
    one query and nothing else, and the result has the saved general
    settings and post-install lists, and the partitioning the constructor
    builds from the saved device and root size and the size just read.
    The saved form carries neither the disk size nor the space left. *)
Theorem installer_round_trip env i w out n :
  capture_stdout env (lsblk_size (device (partitioning i))) = Some out ->
  PyStr.int (PyStr.strip out) = Some n ->
  Installer_deserialize env (Installer_serialize i) w
  = (Ok (Loaded (mkLoadedInstaller
                   (General_loaded (general i))
                   (Partitioning_fields (device (partitioning i))
                      (root_partition_size (partitioning i)) (n / 1024 ^ 2))
                   (PostInstall_loaded (post_install i)))),
     mkWorld (stdin w)
       (events w ++ [Capture (lsblk_size (device (partitioning i)))])).
Proof.
  intros Hc Hn. unfold Installer_deserialize, Installer_serialize.
  assert (R : General_deserialize (General_serialize (general i))
              = Loaded (General_loaded (general i))).
  { unfold General_deserialize, General_serialize.
    cbn [getitem dict_get String.eqb Ascii.eqb Bool.eqb load_bind py_iter].
    rewrite users_round_trip. reflexivity. }
  change (getitem (ODict _) "general") with (Loaded (General_serialize (general i))).
  cbn [load_bind]. rewrite R.
  change (getitem (ODict _) "partitioning")
    with (Loaded (Partitioning_serialize (partitioning i))).
  change (getitem (ODict _) "post_install")
    with (Loaded (PostInstall_serialize (post_install i))).
  cbn [load_bind].
  change (Partitioning_deserialize env (Partitioning_serialize (partitioning i)))
    with (Loaded (Partitioning_init env (device (partitioning i))
                    (VInt (root_partition_size (partitioning i))))).
  change (PostInstall_deserialize (PostInstall_serialize (post_install i)))
    with (Loaded (PostInstall_loaded (post_install i))).
  cbn [load_bind]. unfold Partitioning_init, bind.
  rewrite (get_disk_size_ok env _ out n w Hc Hn). reflexivity.
Qed.

Lemma installer_round_trip_witness :
  Installer_deserialize demo_env
    (Installer_serialize
       (mkInstaller
          (mkGeneral "UTC" (VStr "host") [mkUser (VStr "bob") (VStr "pw") true])
          (Partitioning_fields "/dev/sda" 10240 999)
          (mkPostInstall ["git"] ["https://example.org/a.sh"])))
    (on_input [])
  = (Ok (Loaded (mkLoadedInstaller
                   (General_loaded
                      (mkGeneral "UTC" (VStr "host") [mkUser (VStr "bob") (VStr "pw") true]))
                   (Partitioning_fields "/dev/sda" 10240 40960)
                   (PostInstall_loaded (mkPostInstall ["git"] ["https://example.org/a.sh"])))),
     mkWorld [] [Capture (lsblk_size "/dev/sda")]).
Proof.
  apply (installer_round_trip demo_env
           (mkInstaller
              (mkGeneral "UTC" (VStr "host") [mkUser (VStr "bob") (VStr "pw") true])
              (Partitioning_fields "/dev/sda" 10240 999)
              (mkPostInstall ["git"] ["https://example.org/a.sh"]))
           (on_input []) ("42949672960" +++ NL) 42949672960).
  - reflexivity.
  - vm_compute. reflexivity.
Defined.

(** X18: on a dictionary, [User.deserialize] never raises [TypeError]:
    it builds the user exactly when the three keys [username],
    [password] and [sudo] are present, whatever else the dictionary
    holds, and otherwise raises [KeyError] for a key that is absent. *)
Theorem user_deserialize_keys entries :
  ((exists u, User_deserialize (ODict entries) = Loaded u) <->
   dict_get entries "username" <> None /\
   dict_get entries "password" <> None /\
   dict_get entries "sudo" <> None) /\
  User_deserialize (ODict entries) <> LoadTypeError /\
  forall key, User_deserialize (ODict entries) = KeyError key ->
    dict_get entries key = None /\
    (key = "username" \/ key = "password" \/ key = "sudo").
Proof.
  unfold User_deserialize, getitem.
  destruct (dict_get entries "username") as [a|] eqn:Ea;
    destruct (dict_get entries "password") as [b|] eqn:Eb;
    destruct (dict_get entries "sudo") as [c|] eqn:Ec; cbn [load_bind];
    (split; [split; [intros (u & H); try discriminate H; repeat split; discriminate
                    |intros (Ha & Hb & Hc); try (now exfalso; auto); eauto]
            |split; [discriminate|intros key H; inversion H; subst; auto]]).
Qed.

(** X19: a saved partitioning without the key [root_partition_size] is
    loaded with root size 0: once [lsblk] has answered, the object has no
    separate home partition and all the space after boot and swap is
    left for the root partition. *)
Theorem partitioning_default_root env entries dev out n w :
  dict_get entries "device" = Some (OStr dev) ->
  dict_get entries "root_partition_size" = None ->
  capture_stdout env (lsblk_size dev) = Some out ->
  PyStr.int (PyStr.strip out) = Some n ->
  exists construct p w',
    Partitioning_deserialize env (ODict entries) = Loaded construct /\
    construct w = (Ok p, w') /\
    p = mkPartitioning dev 0 (n / 1024 ^ 2) (n / 1024 ^ 2 - 1536) /\
    has_separate_home_partition p = false /\
    events w' = events w ++ [Capture (lsblk_size dev)].
Proof.
  intros Hd Hr Hc Hn. unfold Partitioning_deserialize, getitem.
  rewrite Hd, Hr. cbn [load_bind].
  eexists _, _, _. split; [reflexivity|].
  unfold Partitioning_new, OStr, Partitioning_init, bind.
  rewrite (get_disk_size_ok env dev out n w Hc Hn). cbn [py_as_int].
  split; [reflexivity|]. split; [reflexivity|]. split; reflexivity.
Qed.

Lemma partitioning_default_root_witness :
  exists construct p w',
    Partitioning_deserialize demo_env (ODict [("device", OStr "/dev/sdb")])
    = Loaded construct /\
    construct (on_input []) = (Ok p, w') /\
    p = mkPartitioning "/dev/sdb" 0 (42949672960 / 1024 ^ 2)
          (42949672960 / 1024 ^ 2 - 1536) /\
    has_separate_home_partition p = false /\
    events w' = events (on_input []) ++ [Capture (lsblk_size "/dev/sdb")].
Proof.
  apply (partitioning_default_root demo_env [("device", OStr "/dev/sdb")] "/dev/sdb"
           ("42949672960" +++ NL) 42949672960 (on_input [])).
  - reflexivity.
  - reflexivity.
  - reflexivity.
  - vm_compute. reflexivity.
Defined.

(** X20: [Installer.deserialize] changes nothing, whatever it is given
    and however it ends: it reads no input, and the only command it may
    run is one read-only [lsblk] query. *)
Theorem installer_deserialize_reads_only env d w r w' :
  Installer_deserialize env d w = (r, w') ->
  stdin w' = stdin w /\
  (events w' = events w \/
   exists dev, events w' = events w ++ [Capture (lsblk_size dev)]).
Proof.
  unfold Installer_deserialize.
  destruct (load_bind (getitem d "general") General_deserialize) as [g|k|];
    try (intros H; inversion H; subst; split; [reflexivity|now left]).
  destruct (load_bind (getitem d "partitioning") (Partitioning_deserialize env))
    as [construct|k|] eqn:Ep;
    try (intros H; inversion H; subst; split; [reflexivity|now left]).
  assert (Hc : exists dev root, construct = Partitioning_new env dev root).
  { destruct (getitem d "partitioning") as [pd|k|]; try discriminate Ep.
    cbn [load_bind] in Ep. unfold Partitioning_deserialize in Ep.
    destruct (getitem pd "device") as [dev|k|]; try discriminate Ep.
    cbn [load_bind] in Ep. inversion Ep. eauto. }
  destruct Hc as (dev & root & ->). unfold bind.
  destruct (Partitioning_new env dev root w) as [[p|e|] w1] eqn:E; intros H;
    inversion H; subst;
    (apply Partitioning_new_world in E; destruct E as [->|(s & ->)];
     [split; [reflexivity|now left]|split; [reflexivity|right; now exists s]]).
Qed.

Lemma installer_deserialize_reads_only_witness :
  stdin (snd (Installer_deserialize demo_env
                (ODict [("general", ODict [("users", OStr ""); ("timezone", OVal VNone);
                                           ("hostname", OVal VNone)]);
                        ("partitioning", ODict [("device", OStr "/dev/sda")])])
                (on_input ["left"])))
  = stdin (on_input ["left"]) /\
  (events (snd (Installer_deserialize demo_env
                  (ODict [("general", ODict [("users", OStr ""); ("timezone", OVal VNone);
                                             ("hostname", OVal VNone)]);
                          ("partitioning", ODict [("device", OStr "/dev/sda")])])
                  (on_input ["left"])))
   = events (on_input ["left"]) \/
   exists dev,
     events (snd (Installer_deserialize demo_env
                    (ODict [("general", ODict [("users", OStr ""); ("timezone", OVal VNone);
                                               ("hostname", OVal VNone)]);
                            ("partitioning", ODict [("device", OStr "/dev/sda")])])
                    (on_input ["left"])))
     = events (on_input ["left"]) ++ [Capture (lsblk_size dev)]).
Proof.
  eapply (installer_deserialize_reads_only demo_env _ (on_input ["left"])).
  apply surjective_pairing.
Defined.
